(** * Verification of the OSA Jinja2 filter plugin

    Shallow embedding of [playbooks/plugins/filter/osa-filters.py].

    The plugin is Python 2 code (it imports [urlparse]), so a [str] is a
    sequence of bytes: strings are Rocq [string]s, whose characters are
    8-bit [ascii] values, [str.lower] folds the bytes 'A'..'Z' only, and
    [sorted] compares strings byte by byte.  A Python [set] is a [gset];
    the order in which Python enumerates a set is not specified, so the
    filters that turn a set into a list are relations over every possible
    enumeration.  Operations that can raise in Python (indexing, tuple
    unpacking, [list.index], [str.encode]) return a [result]. *)

From Stdlib Require Import ZArith Ascii String List.
From stdpp Require Import base tactics option list sorting gmap strings pretty.

Local Open Scope string_scope.
Local Open Scope list_scope.

(** ** Exceptions and results *)

Inductive exn : Type :=
| IndexError
| ValueError
| UnicodeDecodeError
| RuntimeError (message : string)
| AnsibleUndefinedVariable (message : string).

Inductive result (A : Type) : Type :=
| Ok (a : A)
| Raise (e : exn).

Arguments Ok {A} a.
Arguments Raise {A} e.

#[global] Instance result_ret : MRet result := fun A a => Ok a.
#[global] Instance result_bind : MBind result := fun A B f m =>
  match m with
  | Ok a => f a
  | Raise e => Raise e
  end.
#[global] Instance result_fmap : FMap result := fun A B f m =>
  match m with
  | Ok a => Ok (f a)
  | Raise e => Raise e
  end.

Definition returns {A} (m : result A) : Prop := exists a, m = Ok a.

(** ** Python builtins on byte strings and lists *)

Module Py.

(** [l[i]] for a non-negative index. *)
Definition index {A} (l : list A) (i : nat) : result A :=
  match l !! i with
  | Some x => Ok x
  | None => Raise IndexError
  end.

(** [l[-1]]. *)
Definition index_last {A} (l : list A) : result A :=
  match last l with
  | Some x => Ok x
  | None => Raise IndexError
  end.

(** [a, b = l]. *)
Definition unpack2 {A} (l : list A) : result (A * A) :=
  match l with
  | [a; b] => Ok (a, b)
  | _ => Raise ValueError
  end.

(** [l.index(x)]: position of the first element equal to [x]. *)
Fixpoint list_index (x : string) (l : list string) : result nat :=
  match l with
  | [] => Raise ValueError
  | y :: l' => if String.eqb y x then Ok 0 else S <$> list_index x l'
  end.

Definition is_upper (c : ascii) : bool :=
  ((65 <=? N_of_ascii c) && (N_of_ascii c <=? 90))%N.

Definition lower_char (c : ascii) : ascii :=
  if is_upper c then ascii_of_N (N_of_ascii c + 32) else c.

(** [s.lower()] on a byte string. *)
Fixpoint lower (s : string) : string :=
  match s with
  | "" => ""
  | String c s' => String (lower_char c) (lower s')
  end.

(** The remainder of [s] after the prefix [p], when [s] starts with [p]. *)
Fixpoint strip_prefix (p s : string) : option string :=
  match p, s with
  | "", _ => Some s
  | String a p', String b s' =>
      if Ascii.eqb a b then strip_prefix p' s' else None
  | String _ _, "" => None
  end.

(** [s.startswith(p)]. *)
Definition startswith (s p : string) : bool :=
  match strip_prefix p s with
  | Some _ => true
  | None => false
  end.

(** The text before and after the leftmost occurrence of [sep] in [s]. *)
Fixpoint split_once (sep s : string) : option (string * string) :=
  match strip_prefix sep s with
  | Some rest => Some ("", rest)
  | None =>
      match s with
      | "" => None
      | String c s' =>
          match split_once sep s' with
          | Some (before, after) => Some (String c before, after)
          | None => None
          end
      end
  end.

(** [sub in s]. *)
Definition contains (sub s : string) : bool :=
  match split_once sub s with
  | Some _ => true
  | None => false
  end.

(** [s.find(sub)], with [None] for Python's -1. *)
Definition find (sub s : string) : option nat :=
  match split_once sub s with
  | Some (before, _) => Some (String.length before)
  | None => None
  end.

(** [s.split(sep, maxsplit)] for a non-empty separator. *)
Fixpoint split_max (maxsplit : nat) (sep s : string) : list string :=
  match maxsplit with
  | O => [s]
  | S n =>
      match split_once sep s with
      | Some (before, after) => before :: split_max n sep after
      | None => [s]
      end
  end.

(** [s.split(sep)]: every cut removes at least one character, so
    [length s] cuts are as good as no limit. *)
Definition split (sep s : string) : list string :=
  split_max (String.length s) sep s.

(** [s.rstrip(c)] for a single character [c]. *)
Fixpoint rstrip (c : ascii) (s : string) : string :=
  match s with
  | "" => ""
  | String a s' =>
      match rstrip c s' with
      | "" => if Ascii.eqb a c then "" else String a ""
      | r => String a r
      end
  end.

(** [s[n:]]. *)
Fixpoint drop (n : nat) (s : string) : string :=
  match n, s with
  | O, _ => s
  | S n', String _ s' => drop n' s'
  | S _, "" => ""
  end.

(** [s.rfind(c) + 1] for a single character [c]. *)
Fixpoint rfind_next (c : ascii) (s : string) : nat :=
  match s with
  | "" => 0
  | String a s' =>
      match rfind_next c s' with
      | O => if Ascii.eqb a c then 1 else 0
      | S k => S (S k)
      end
  end.

(** [os.path.basename(p)] of [posixpath]:
    [i = p.rfind('/') + 1; return p[i:]]. *)
Definition basename (p : string) : string :=
  let i := rfind_next "/" p in
  drop i p.

(** Python's truth value of a string. *)
Definition truthy (s : string) : bool :=
  negb (String.eqb s "").

(** The [\s] class of [re] without the UNICODE flag: [ \t\n\r\f\v]. *)
Definition is_space (c : ascii) : bool :=
  let n := N_of_ascii c in
  ((n =? 32) || ((9 <=? n) && (n <=? 13)))%N.

Fixpoint skip_spaces (s : string) : string :=
  match s with
  | "" => ""
  | String c s' => if is_space c then skip_spaces s' else s
  end.

(** A regular-expression alternation [a1|a2|...] of literals at the start
    of [s]: the first alternative, in the order written, that is a prefix
    of [s]; returns it with the rest of [s]. *)
Fixpoint match_alternation (alts : list string) (s : string)
  : option (string * string) :=
  match alts with
  | [] => None
  | a :: alts' =>
      match strip_prefix a s with
      | Some rest => Some (a, rest)
      | None => match_alternation alts' s
      end
  end.

(** [re.search] for the pattern [(a1|a2|...)\s*]: the text before the
    leftmost match, the captured group, and the text after the match
    ([\s*] is greedy and cannot fail, so nothing backtracks). *)
Fixpoint search_alternation_spaces (alts : list string) (s : string)
  : option (string * string * string) :=
  match match_alternation alts s with
  | Some (group, rest) => Some ("", group, skip_spaces rest)
  | None =>
      match s with
      | "" => None
      | String c s' =>
          match search_alternation_spaces alts s' with
          | Some (before, group, after) => Some (String c before, group, after)
          | None => None
          end
      end
  end.

(** [re.split] for the pattern [(a1|a2|...)\s*] with at most [maxsplit]
    cuts: the pieces between the matches, each followed by the captured
    group of the match that ends it. *)
Fixpoint re_split_max (maxsplit : nat) (alts : list string) (s : string)
  : list string :=
  match maxsplit with
  | O => [s]
  | S n =>
      match search_alternation_spaces alts s with
      | Some (before, group, after) =>
          before :: group :: re_split_max n alts after
      | None => [s]
      end
  end.

(** [re.split(pattern, s)]: every match is non-empty, so [length s] cuts
    are as good as no limit. *)
Definition re_split (alts : list string) (s : string) : list string :=
  re_split_max (String.length s) alts s.

(** [sorted(l)] on byte strings: [String.le] compares byte by byte, a
    proper prefix first, as Python 2 compares [str] values. *)
Definition sorted (l : list string) : list string :=
  merge_sort String.le l.

(** The possible results of [list(s)], or of iterating over [s], for a
    set [s]: each element once, in an order Python does not specify. *)
Definition list_of_set (s : gset string) (l : list string) : Prop :=
  l ≡ₚ elements s.

End Py.

(** ** [_pip_requirement_split] *)

(** The alternatives of [version_descriptors = "(>=|<=|>|<|==|~=|!=)"],
    in the order the pattern lists them. *)
Definition version_descriptors : list string :=
  [">="; "<="; ">"; "<"; "=="; "~="; "!="].

Definition _pip_requirement_split (requirement : string)
  : result (string * option string * option string) :=
  let requirement := Py.split ";" requirement in
  requirement_0 ← Py.index requirement 0;
  let requirement_info := Py.re_split version_descriptors requirement_0 in
  name ← Py.index requirement_info 0;
  marker ← (if (1 <? length requirement)%nat
            then Some <$> Py.index requirement 1
            else Ok None);
  versions ← (if (1 <? length requirement_info)%nat
              then Some <$> Py.index requirement_info 1
              else Ok None);
  Ok (name, versions, marker).

(** ** [_lower_set_lists] *)

Definition _lower_set_lists (list_one list_two : list string)
  : gset string * gset string :=
  let _list_one : gset string := list_to_set (Py.lower <$> list_one) in
  let _list_two : gset string := list_to_set (Py.lower <$> list_two) in
  (_list_one, _list_two).

(** ** [bit_length_power_of_2] *)

(** [int.bit_length]: the number of bits of the absolute value. *)
Definition bit_length (n : Z) : Z :=
  if (n =? 0)%Z then 0%Z else (Z.log2 (Z.abs n) + 1)%Z.

Definition bit_length_power_of_2 (value : Z) : Z :=
  (2 ^ bit_length (value - 1))%Z.

(** ** [string_2_int] *)

(** The two string types of Python 2: [str] (bytes) and [unicode]
    (code points). *)
Inductive pystring : Type :=
| Str (bytes : string)
| Unicode (code_points : list N).

Definition byte (n : N) : ascii := ascii_of_N n.

(** UTF-8 encoding of one code point. *)
Definition utf8_encode_point (cp : N) : string :=
  (if cp <? 128 then String (byte cp) ""
   else if cp <? 2048 then
     String (byte (192 + cp / 64)) (String (byte (128 + cp mod 64)) "")
   else if cp <? 65536 then
     String (byte (224 + cp / 4096))
       (String (byte (128 + (cp / 64) mod 64))
          (String (byte (128 + cp mod 64)) ""))
   else
     String (byte (240 + cp / 262144))
       (String (byte (128 + (cp / 4096) mod 64))
          (String (byte (128 + (cp / 64) mod 64))
             (String (byte (128 + cp mod 64)) ""))))%N.

Fixpoint is_ascii (s : string) : bool :=
  match s with
  | "" => true
  | String c s' => (N_of_ascii c <? 128)%N && is_ascii s'
  end.

(** [string.encode('utf-8')].  On a [str] Python 2 first decodes the bytes
    with the default ASCII codec, which raises [UnicodeDecodeError] on a
    byte above 127, and then encodes the text again. *)
Definition encode_utf8 (text : pystring) : result string :=
  match text with
  | Str bytes => if is_ascii bytes then Ok bytes else Raise UnicodeDecodeError
  | Unicode code_points =>
      Ok (foldr (fun cp acc => String.append (utf8_encode_point cp) acc) ""
            code_points)
  end.

(** The value of one digit in base 36. *)
Definition digit36 (c : ascii) : option Z :=
  let n := Z.of_N (N_of_ascii c) in
  (if (48 <=? n) && (n <=? 57) then Some (n - 48)
   else if (97 <=? n) && (n <=? 122) then Some (n - 87)
   else if (65 <=? n) && (n <=? 90) then Some (n - 55)
   else None)%Z.

Fixpoint int36_digits (acc : Z) (s : string) : result Z :=
  match s with
  | "" => Ok acc
  | String c s' =>
      match digit36 c with
      | Some d => int36_digits (36 * acc + d)%Z s'
      | None => Raise ValueError
      end
  end.

(** [int(s, 36)] on a string of digits (a sign or surrounding blanks,
    which Python also reads, do not occur in a hex digest). *)
Definition int36 (s : string) : result Z :=
  match s with
  | "" => Raise ValueError
  | _ => int36_digits 0 s
  end.

Definition is_hex_char (c : ascii) : bool :=
  let n := N_of_ascii c in
  (((48 <=? n) && (n <=? 57)) || ((97 <=? n) && (n <=? 102)))%N.

Fixpoint all_hex (s : string) : bool :=
  match s with
  | "" => true
  | String c s' => is_hex_char c && all_hex s'
  end.

(** What [hashlib] promises of a SHA-256 hex digest: 64 lower-case
    hexadecimal digits. *)
Definition is_hexdigest (s : string) : Prop :=
  String.length s = 64 /\ all_hex s = true.

Section Hashing.

(** [hashlib.sha256(data).hexdigest()], a function of the library. *)
Variable sha256_hexdigest : string -> string.

Definition string_2_int (string_ : pystring) : result Z :=
  string_ ← encode_utf8 string_;
  let hashed_name := sha256_hexdigest string_ in
  n ← int36 hashed_name;
  Ok (n mod 10240)%Z.

End Hashing.

(** ** [pip_requirement_names] *)

(** The [for] loop of [pip_requirement_names], started from the list
    [named_requirements] built so far. *)
Fixpoint named_requirements_loop (named_requirements requirements : list string)
  : result (list string) :=
  match requirements with
  | [] => Ok named_requirements
  | requirement :: requirements' =>
      '(name, _, _) ← _pip_requirement_split requirement;
      if Py.truthy name && negb (Py.startswith name "#")
      then named_requirements_loop (named_requirements ++ [Py.lower name])
             requirements'
      else named_requirements_loop named_requirements requirements'
  end.

(** [sorted(set(named_requirements))], for every enumeration of the set. *)
Inductive pip_requirement_names (requirements : list string)
  : result (list string) -> Prop :=
| pip_requirement_names_return named_requirements l :
    named_requirements_loop [] requirements = Ok named_requirements ->
    Py.list_of_set (list_to_set named_requirements) l ->
    pip_requirement_names requirements (Ok (Py.sorted l))
| pip_requirement_names_raise e :
    named_requirements_loop [] requirements = Raise e ->
    pip_requirement_names requirements (Raise e).

(** ** [pip_constraint_update] *)

(** Python's truth value of [versions], a string or [None]. *)
Definition truthy_versions (versions : option string) : bool :=
  match versions with
  | Some v => Py.truthy v
  | None => false
  end.

(** [_list_one[i] = x]. *)
Definition setitem (l : list string) (i : nat) (x : string)
  : result (list string) :=
  if (i <? length l)%nat then Ok (<[i:=x]> l) else Raise IndexError.

(** The inner [for item1 in _list_one] loop up to its [break]: the first
    [item1] whose parsed name is [item2_name]; [None] is the [else] branch
    of the loop. *)
Fixpoint first_same_name (item2_name : string) (_list_one : list string)
  : result (option string) :=
  match _list_one with
  | [] => Ok None
  | item1 :: rest =>
      '(item1_name, _, _) ← _pip_requirement_split item1;
      if String.eqb item2_name item1_name
      then Ok (Some item1)
      else first_same_name item2_name rest
  end.

(** One turn of the outer loop. *)
Definition update_with (_list_one : list string) (item2 : string)
  : result (list string) :=
  '(item2_name, item2_versions, _) ← _pip_requirement_split item2;
  if truthy_versions item2_versions then
    found ← first_same_name item2_name _list_one;
    match found with
    | Some item1 =>
        item1_index ← Py.list_index item1 _list_one;
        setitem _list_one item1_index item2
    | None => Ok (_list_one ++ [item2])
    end
  else Ok _list_one.

Fixpoint update_loop (_list_one _list_two : list string)
  : result (list string) :=
  match _list_two with
  | [] => Ok _list_one
  | item2 :: rest =>
      _list_one ← update_with _list_one item2;
      update_loop _list_one rest
  end.

(** The filter, for every enumeration of the two sets. *)
Inductive pip_constraint_update (list_one list_two : list string)
  : result (list string) -> Prop :=
| pip_constraint_update_intro _list_one _list_two :
    Py.list_of_set (_lower_set_lists list_one list_two).1 _list_one ->
    Py.list_of_set (_lower_set_lists list_one list_two).2 _list_two ->
    pip_constraint_update list_one list_two
      (Py.sorted <$> update_loop _list_one _list_two).

(** ** [filtered_list] *)

Definition filtered_list (list_one list_two out : list string) : Prop :=
  let '(_list_one, _list_two) := _lower_set_lists list_one list_two in
  Py.list_of_set (_list_one ∖ _list_two) out.

(** ** [git_link_parse] *)

Module GitLink.

Record t : Type := Build {
  name : string;
  version : string;
  plugin_path : option string;
  url : string;
  original : string
}.

End GitLink.

(** The first [if] of [git_link_parse]: the working URL [_git_url]. *)
Definition git_url_of (repo : string) : result string :=
  if Py.contains "git+" repo
  then Py.index_last (Py.split_max 1 "git+" repo)
  else Ok repo.

(** The rest of [git_link_parse], from [_git_url] on. *)
Definition git_link_parse_url (repo _git_url : string) : result GitLink.t :=
  '(url, branch) ← (if Py.contains "@" _git_url
                    then Py.unpack2 (Py.split_max 1 "@" _git_url)
                    else Ok (_git_url, "master"));
  let name := Py.basename (Py.rstrip "/" url) in
  let _branch := Py.split "#" branch in
  branch ← Py.index _branch 0;
  plugin_path ←
    (if (1 <? length _branch)%nat then
       last_fragment ← Py.index_last _branch;
       if Py.contains "subdirectory=" last_fragment then
         value ← Py.index_last (Py.split "subdirectory=" last_fragment);
         Some <$> Py.index (Py.split "&" value) 0
       else Ok None
     else Ok None);
  name_0 ← Py.index (Py.split ".git" name) 0;
  Ok {| GitLink.name := Py.lower name_0;
        GitLink.version := branch;
        GitLink.plugin_path := plugin_path;
        GitLink.url := url;
        GitLink.original := repo |}.

Definition git_link_parse (repo : string) : result GitLink.t :=
  _git_url ← git_url_of repo;
  git_link_parse_url repo _git_url.

Definition git_link_parse_name (repo : string) : result string :=
  GitLink.name <$> git_link_parse repo.

(** ** [_deprecated] *)

(** The values a template hands to the filter: [None], Jinja2's
    [Undefined], booleans, integers and strings. *)
Inductive pyobj : Type :=
| PyNone
| PyUndefined
| PyBool (b : bool)
| PyInt (z : Z)
| PyStr (s : string).

(** Python's truth value ([Undefined] is false). *)
Definition py_bool (o : pyobj) : bool :=
  match o with
  | PyNone => false
  | PyUndefined => false
  | PyBool b => b
  | PyInt z => negb (z =? 0)%Z
  | PyStr s => Py.truthy s
  end.

(** [str(o)] ([Undefined] prints as the empty string). *)
Definition py_str (o : pyobj) : string :=
  match o with
  | PyNone => "None"
  | PyUndefined => ""
  | PyBool true => "True"
  | PyBool false => "False"
  | PyInt z => pretty z
  | PyStr s => s
  end.

(** [isinstance(o, Undefined)]. *)
Definition is_undefined (o : pyobj) : bool :=
  match o with
  | PyUndefined => true
  | _ => false
  end.

(** The logger ['Ansible-Warning| '] of the [logging] registry: its
    level, its handlers, and the records logged through it so far. *)
Module Logging.

Inductive level : Type := DEBUG | WARNING | CRITICAL.

Record handler : Type := Handler {
  handler_name : option string;
  handler_level : level;
  handler_format : string
}.

Record logger : Type := Logger {
  logger_level : option level;
  handlers : list handler;
  records : list (level * string)
}.

(** [log.warn(message)] and [log.fatal(message)]: one more record. *)
Definition log (l : level) (message : string) (lg : logger) : logger :=
  {| logger_level := logger_level lg;
     handlers := handlers lg;
     records := records lg ++ [(l, message)] |}.

End Logging.

(** The double quote character, which the messages contain. *)
Definition dq : string := String (ascii_of_nat 34) "".

Definition _usage : string :=
  "USAGE: "
  +:+ "{{ new_var | deprecated(old_var=old_var, old_var_name="
  +:+ dq +:+ "old_var_name" +:+ dq +:+ ","
  +:+ " new_var_name=" +:+ dq +:+ "new_var_name" +:+ dq
  +:+ ", removed_in=" +:+ dq +:+ "removed_in" +:+ dq +:+ ","
  +:+ " fatal=false) }}".

Definition logger_name : string := "Ansible-Warning| ".

(** The [for handler in log.handlers ... else] block: the stream handler
    is added, and the level set, unless a handler of that name is there. *)
Definition configure_logger (log : Logging.logger) : Logging.logger :=
  if existsb
       (fun handler =>
          match Logging.handler_name handler with
          | Some n => String.eqb logger_name n
          | None => false
          end)
       (Logging.handlers log)
  then log
  else
    let stream_handler :=
      Logging.Handler (Some logger_name) Logging.DEBUG
        "%(asctime)s - %(name)s%(levelname)s => %(message)s" in
    {| Logging.logger_level := Some Logging.DEBUG;
       Logging.handlers := Logging.handlers log ++ [stream_handler];
       Logging.records := Logging.records log |}.

Definition deprecation_message (old_var_name new_var_name removed_in : pyobj)
  : string :=
  "Deprecated Option provided: Deprecated variable: " +:+ dq
  +:+ py_str old_var_name +:+ dq +:+ ", Removal"
  +:+ " timeframe: " +:+ dq +:+ py_str removed_in +:+ dq
  +:+ ", Future usage: " +:+ dq +:+ py_str new_var_name +:+ dq.

(** [str(fatal).lower() in ['yes', 'true']]. *)
Definition is_fatal (fatal : pyobj) : bool :=
  let f := Py.lower (py_str fatal) in
  String.eqb f "yes" || String.eqb f "true".

(** The filter, threading the logger it configures and writes to. *)
Definition _deprecated (new_var old_var old_var_name new_var_name removed_in
                          fatal : pyobj) (log : Logging.logger)
  : result pyobj * Logging.logger :=
  if negb (py_bool old_var_name) then
    (Raise (AnsibleUndefinedVariable
       ("To use this filter you must provide the " +:+ dq +:+ "old_var_name"
        +:+ dq +:+ " option"
        +:+ " with the string name of the old variable that will be"
        +:+ " replaced. " +:+ _usage)), log)
  else if negb (py_bool new_var_name) then
    (Raise (AnsibleUndefinedVariable
       ("To use this filter you must provide the " +:+ dq +:+ "new_var_name"
        +:+ dq +:+ " option"
        +:+ " with the string name of the new variable that will replace the"
        +:+ " deprecated one. " +:+ _usage)), log)
  else if negb (py_bool removed_in) then
    (Raise (AnsibleUndefinedVariable
       ("To use this filter you must provide the " +:+ dq +:+ "removed_in"
        +:+ dq +:+ " option with"
        +:+ " the string name of the release where the old_var will be"
        +:+ " removed. " +:+ _usage)), log)
  else if is_undefined old_var || negb (py_bool old_var) then
    (Ok new_var, log)
  else
    let log := configure_logger log in
    let message := deprecation_message old_var_name new_var_name removed_in in
    if is_fatal fatal then
      let message := "Fatally " +:+ message in
      (Raise (RuntimeError message), Logging.log Logging.CRITICAL message log)
    else
      (Ok old_var, Logging.log Logging.WARNING message log).

(** ** The URL filters *)

Module Url.

(** The two attributes of [urlparse]'s result that the filters read. *)
Record parse_result : Type := ParseResult {
  scheme : string;
  netloc : string
}.

End Url.

(** What the URL filters raise: the filter error they wrap a failure of
    the parser in, or an exception of a builtin. *)
Inductive filter_exn : Type :=
| AnsibleFilterError (message : string)
| Builtin (e : exn).

Section UrlFilters.

(** [urlparse.urlparse(url)], a function of the standard library: the
    parsed URL, or [inl (str(exp))] when it raises [exp]. *)
Variable urlparse : string -> string + Url.parse_result.

Definition get_netloc (url : string) : filter_exn + string :=
  match urlparse url with
  | inl exp =>
      inl (AnsibleFilterError
             ("Failed to return the netloc of: " +:+ dq +:+ exp +:+ dq))
  | inr parsed => inr (Url.netloc parsed)
  end.

Definition get_netloc_no_port (url : string) : filter_exn + string :=
  match get_netloc url with
  | inl e => inl e
  | inr netloc =>
      match Py.index (Py.split ":" netloc) 0 with
      | Ok host => inr host
      | Raise e => inl (Builtin e)
      end
  end.

Definition get_netorigin (url : string) : filter_exn + string :=
  match urlparse url with
  | inl exp =>
      inl (AnsibleFilterError
             ("Failed to return the netorigin of: " +:+ dq +:+ exp +:+ dq))
  | inr parsed =>
      inr (Url.scheme parsed +:+ "://" +:+ Url.netloc parsed)
  end.

End UrlFilters.

(** ** [splitlines] *)

Definition LF : ascii := "010"%char.

Definition CR : ascii := "013"%char.

(** [string_with_lines.splitlines()] on a byte string: the lines end at
    [\n], [\r] or [\r\n], the line ends are dropped, and an empty last
    line is not listed. *)
Fixpoint splitlines (string_with_lines : string) : list string :=
  match string_with_lines with
  | "" => []
  | String c s' =>
      if Ascii.eqb c LF then "" :: splitlines s'
      else if Ascii.eqb c CR then
        match s' with
        | String c' s'' =>
            if Ascii.eqb c' LF then "" :: splitlines s''
            else "" :: splitlines s'
        | "" => [""]
        end
      else
        match splitlines s' with
        | [] => [String c ""]
        | line :: lines => String c line :: lines
        end
  end.

(** * Vocabulary of the statements *)

(** ** Strings *)

Fixpoint all_chars (P : ascii -> bool) (s : string) : bool :=
  match s with
  | "" => true
  | String c s' => P c && all_chars P s'
  end.

(** The characters the version descriptors are made of. *)
Definition is_descriptor_char (c : ascii) : bool :=
  existsb (Ascii.eqb c) [">"; "<"; "="; "~"; "!"]%char.

Definition is_semicolon (c : ascii) : bool := Ascii.eqb c ";".

(** A requirement name: no descriptor character and no [;]. *)
Definition plain_name (s : string) : bool :=
  all_chars (fun c => negb (is_descriptor_char c || is_semicolon c)) s.

Definition no_semicolon (s : string) : bool :=
  all_chars (fun c => negb (is_semicolon c)) s.

(** No [@] anywhere. *)
Definition no_at_sign (s : string) : bool :=
  all_chars (fun c => negb (Ascii.eqb c "@")) s.

(** No upper-case letter anywhere. *)
Definition is_lowered (s : string) : bool :=
  all_chars (fun c => negb (Py.is_upper c)) s.

(** ** [pip_requirement_names] *)

(** The names the filter keeps: the lower-cased parsed name of a
    requirement, when that name is neither empty nor a comment. *)
Definition kept_name (requirements : list string) (x : string) : Prop :=
  exists requirement name versions marker,
    requirement ∈ requirements
    /\ _pip_requirement_split requirement = Ok (name, versions, marker)
    /\ name <> ""
    /\ Py.startswith name "#" = false
    /\ x = Py.lower name.

(** ** The merge of two requirement lists *)

(** The merge as the specification words it, over the parsed fields. *)
Definition parsed_name (entry : string) : string :=
  match _pip_requirement_split entry with
  | Ok (name, _, _) => name
  | Raise _ => ""
  end.

Definition has_version_spec (entry : string) : bool :=
  match _pip_requirement_split entry with
  | Ok (_, versions, _) => truthy_versions versions
  | Raise _ => false
  end.

(** Names match when they are equal up to case. *)
Definition same_name (entry override : string) : bool :=
  String.eqb (Py.lower (parsed_name entry)) (Py.lower (parsed_name override)).

(** Replace the first base entry of the same name by the override, or
    append the override when there is none. *)
Fixpoint replace_or_append (override : string) (base : list string)
  : list string :=
  match base with
  | [] => [override]
  | entry :: base' =>
      if same_name entry override
      then override :: base'
      else entry :: replace_or_append override base'
  end.

(** An override without a version spec is ignored. *)
Definition merge_override (base : list string) (override : string)
  : list string :=
  if has_version_spec override then replace_or_append override base else base.

Definition merge_spec (base overrides : list string) : list string :=
  Py.sorted (foldl merge_override base overrides).

(** ** Further vocabulary *)

(** [sub] occurs somewhere in [s]. *)
Definition occurs_in (sub s : string) : Prop :=
  exists pre post, s = pre +:+ sub +:+ post.

(** Neither an upper-case nor a lower-case letter. *)
Definition caseless (c : ascii) : bool :=
  let n := N_of_ascii c in
  negb (Py.is_upper c) && negb ((97 <=? n) && (n <=? 122))%N.

(** The fields of a parsed requirement, lower-cased. *)
Definition lower_fields (fields : string * option string * option string)
  : string * option string * option string :=
  let '(name, versions, marker) := fields in
  (Py.lower name, versions, Py.lower <$> marker).

(** Free of [;] and of every version descriptor. *)
Definition plain (s : string) : Prop :=
  no_semicolon s = true
  /\ forall a, a ∈ version_descriptors -> ~ occurs_in a s.

(** The name of a requirement up to case. *)
Definition name_key (entry : string) : string :=
  Py.lower (parsed_name entry).

(** The character [c] does not occur in [s]. *)
Definition free_of (c : ascii) (s : string) : bool :=
  all_chars (fun a => negb (Ascii.eqb a c)) s.


(** The code points of a byte string read as Latin-1 (ASCII, when its
    bytes are below 128). *)
Fixpoint code_points (s : string) : list N :=
  match s with
  | "" => []
  | String c s' => N_of_ascii c :: code_points s'
  end.

(** No line break in [s]. *)
Definition one_line (s : string) : bool :=
  free_of LF s && free_of CR s.

(** * Properties *)

(** ** The models of the Python builtins on examples *)

Example split_all : Py.split ";" "a;b;;c;" = ["a"; "b"; ""; "c"; ""].
Proof. reflexivity. Qed.

Example split_at_most_once :
  Py.split_max 1 "@" "url@v1@x" = ["url"; "v1@x"].
Proof. reflexivity. Qed.

Example re_split_descriptors :
  Py.re_split version_descriptors "pkg >= 1.0,<2.0"
  = ["pkg "; ">="; "1.0,"; "<"; "2.0"].
Proof. reflexivity. Qed.

Example basename_rstrip :
  Py.basename (Py.rstrip "/" "https://example.com/org/repo.git//") = "repo.git".
Proof. reflexivity. Qed.

Example sorted_bytes :
  Py.sorted ["foo>=2.0"; "bar==2.0"; "Zed"; "bar"] = ["Zed"; "bar"; "bar==2.0"; "foo>=2.0"].
Proof. vm_compute. reflexivity. Qed.

Example utf8_e_acute :
  encode_utf8 (Unicode [233]%N) = Ok (String "195" (String "169" "")).
Proof. reflexivity. Qed.

(** ** Strings *)

Lemma all_chars_app P s t :
  all_chars P (s +:+ t) = all_chars P s && all_chars P t.
Proof.
  induction s as [|c s IH]; simpl; [reflexivity|].
  rewrite IH. apply andb_assoc.
Qed.

Lemma all_chars_impl (P Q : ascii -> bool) s :
  (forall c, P c = true -> Q c = true) ->
  all_chars P s = true -> all_chars Q s = true.
Proof.
  intros HPQ. induction s as [|c s IH]; simpl; [reflexivity|].
  rewrite !andb_true_iff. intros [Hc Hs]. auto.
Qed.

Lemma strip_prefix_app p s : Py.strip_prefix p (p +:+ s) = Some s.
Proof.
  induction p as [|c p IH]; simpl.
  - destruct s; reflexivity.
  - rewrite Ascii.eqb_refl. exact IH.
Qed.

Lemma split_once_absent c s :
  all_chars (fun a => negb (Ascii.eqb a c)) s = true ->
  Py.split_once (String c "") s = None.
Proof.
  induction s as [|a s IH]; simpl; [reflexivity|].
  rewrite andb_true_iff, negb_true_iff. intros [Ha Hs].
  rewrite Ascii.eqb_sym, Ha, (IH Hs). reflexivity.
Qed.

Lemma split_absent c s :
  all_chars (fun a => negb (Ascii.eqb a c)) s = true ->
  Py.split (String c "") s = [s].
Proof.
  intros H. unfold Py.split.
  destruct (String.length s); simpl; [reflexivity|].
  rewrite (split_once_absent _ _ H). reflexivity.
Qed.

(** ** The requirement parser *)

Lemma strip_prefix_head a p c s :
  Ascii.eqb c a = false -> Py.strip_prefix (String a p) (String c s) = None.
Proof. intros H. cbn [Py.strip_prefix]. rewrite Ascii.eqb_sym, H. reflexivity. Qed.

Lemma match_alternation_plain c s :
  is_descriptor_char c = false ->
  Py.match_alternation version_descriptors (String c s) = None.
Proof.
  unfold is_descriptor_char. cbn [existsb]. rewrite !orb_false_iff.
  intros (H1 & H2 & H3 & H4 & H5 & _).
  unfold version_descriptors. cbn [Py.match_alternation].
  rewrite !strip_prefix_head by assumption. reflexivity.
Qed.

Lemma match_alternation_descriptor op rest :
  op ∈ version_descriptors ->
  Py.startswith rest "=" = false ->
  Py.match_alternation version_descriptors (op +:+ rest) = Some (op, rest).
Proof.
  intros Hop Hrest.
  assert (Hcut : forall c, Py.strip_prefix (String c "=") (String c rest) = None).
  { intros c. cbn [Py.strip_prefix]. rewrite Ascii.eqb_refl.
    unfold Py.startswith in Hrest. cbn [Py.strip_prefix] in Hrest.
    destruct rest as [|a rest]; [reflexivity|].
    destruct (Ascii.eqb "=" a); [|reflexivity].
    destruct rest; discriminate. }
  unfold version_descriptors in Hop.
  repeat (apply elem_of_cons in Hop as [->|Hop]);
    [| | | | | | | by apply elem_of_nil in Hop].
  all: unfold version_descriptors; cbn [Py.match_alternation].
  all: rewrite strip_prefix_app; cbv beta iota fix delta [String.append].
  all: rewrite ?(Hcut ">"%char), ?(Hcut "<"%char).
  all: rewrite ?strip_prefix_head by reflexivity.
  all: reflexivity.
Qed.

Lemma search_descriptor name op rest :
  plain_name name = true ->
  op ∈ version_descriptors ->
  Py.startswith rest "=" = false ->
  Py.search_alternation_spaces version_descriptors (name +:+ op +:+ rest)
  = Some (name, op, Py.skip_spaces rest).
Proof.
  intros Hname Hop Hrest. induction name as [|c name IH].
  - change ("" +:+ op +:+ rest) with (op +:+ rest).
    destruct (op +:+ rest) eqn:E; cbn [Py.search_alternation_spaces];
      rewrite <- E, (match_alternation_descriptor _ _ Hop Hrest); reflexivity.
  - unfold plain_name in Hname. cbn [all_chars] in Hname.
    apply andb_true_iff in Hname as [Hc Hname].
    rewrite negb_true_iff, orb_false_iff in Hc. destruct Hc as [Hc _].
    change (String c name +:+ op +:+ rest)
      with (String c (name +:+ op +:+ rest)).
    cbn [Py.search_alternation_spaces].
    rewrite (match_alternation_plain _ _ Hc), (IH Hname). reflexivity.
Qed.

Lemma descriptor_no_semicolon op :
  op ∈ version_descriptors -> no_semicolon op = true.
Proof.
  unfold version_descriptors. intros Hop.
  repeat (apply elem_of_cons in Hop as [->|Hop]); try reflexivity.
  by apply elem_of_nil in Hop.
Qed.

Lemma descriptor_length op :
  op ∈ version_descriptors -> (0 < String.length op)%nat.
Proof.
  unfold version_descriptors. intros Hop.
  repeat (apply elem_of_cons in Hop as [->|Hop]); simpl; try lia.
  by apply elem_of_nil in Hop.
Qed.

Lemma string_length_app s t :
  String.length (s +:+ t) = (String.length s + String.length t)%nat.
Proof.
  induction s as [|a s IH]; [reflexivity|].
  change (String a s +:+ t) with (String a (s +:+ t)).
  cbn [String.length]. rewrite IH. reflexivity.
Qed.

(** C1 as the specification states it is false: the version field holds
    the matched operator only, never the version that follows it. *)
Lemma pip_requirement_split_drops_version :
  _pip_requirement_split "pkg>=1.0" = Ok ("pkg", Some ">=", None)
  /\ _pip_requirement_split "pkg>=1.0" <> Ok ("pkg", Some ">=1.0", None).
Proof. split; [vm_compute; reflexivity | vm_compute; discriminate]. Qed.

(** C1 (amended): for a requirement made of a name (free of descriptor
    characters and of [;]), one of the version descriptors and a version
    (free of [;], not starting with [=]), [_pip_requirement_split] returns
    the name, the matched descriptor alone as the version field, and no
    marker; so ["pkg>=1.0"] parses to [("pkg", ">=", None)]. *)
Theorem pip_requirement_split_descriptor name op rest :
  plain_name name = true ->
  op ∈ version_descriptors ->
  no_semicolon rest = true ->
  Py.startswith rest "=" = false ->
  _pip_requirement_split (name +:+ op +:+ rest) = Ok (name, Some op, None).
Proof.
  intros Hname Hop Hrest Heq.
  assert (Hsemi : no_semicolon (name +:+ op +:+ rest) = true).
  { unfold no_semicolon. rewrite !all_chars_app, !andb_true_iff.
    repeat split; [|by apply descriptor_no_semicolon|exact Hrest].
    revert Hname. apply all_chars_impl. intros c.
    rewrite !negb_true_iff, orb_false_iff. tauto. }
  unfold _pip_requirement_split.
  rewrite (split_absent ";"%char _ Hsemi). cbn [Py.index lookup list_lookup mbind result_bind length].
  unfold Py.re_split.
  assert (Hlen : exists n, String.length (name +:+ op +:+ rest) = S n).
  { rewrite !string_length_app. pose proof (descriptor_length _ Hop).
    exists (String.length name + String.length op + String.length rest - 1)%nat.
    lia. }
  destruct Hlen as [n ->]. cbn [Py.re_split_max].
  rewrite (search_descriptor _ _ _ Hname Hop Heq). reflexivity.
Qed.

Lemma pip_requirement_split_descriptor_witness :
  _pip_requirement_split ("pkg" +:+ ">=" +:+ "1.0") = Ok ("pkg", Some ">=", None).
Proof.
  apply pip_requirement_split_descriptor.
  - reflexivity.
  - apply elem_of_cons. left. reflexivity.
  - reflexivity.
  - reflexivity.
Defined.

(** ** [bit_length_power_of_2] *)

Lemma bit_length_nonneg n : (0 <= bit_length n)%Z.
Proof.
  unfold bit_length. destruct (n =? 0)%Z; [lia|].
  pose proof (Z.log2_nonneg (Z.abs n)). lia.
Qed.

Lemma bit_length_bounds n :
  (0 < n)%Z -> (2 ^ (bit_length n - 1) <= n < 2 ^ bit_length n)%Z.
Proof.
  intros Hn. unfold bit_length.
  destruct (Z.eqb_spec n 0) as [->|_]; [lia|].
  rewrite Z.abs_eq by lia.
  replace (Z.log2 n + 1 - 1)%Z with (Z.log2 n) by lia.
  pose proof (Z.log2_spec n Hn). unfold Z.succ in *. lia.
Qed.

(** C8: for [value >= 1], [bit_length_power_of_2 value] is 2 raised to the
    bit length of [value - 1], and it is the smallest power of two that
    is at least [value]; it maps 5 to 8 and 8 to 8. *)
Theorem bit_length_power_of_2_smallest (value : Z) :
  (1 <= value)%Z ->
  bit_length_power_of_2 value = (2 ^ bit_length (value - 1))%Z
  /\ (exists k, 0 <= k /\ bit_length_power_of_2 value = 2 ^ k)%Z
  /\ (value <= bit_length_power_of_2 value)%Z
  /\ (forall k, 0 <= k -> value <= 2 ^ k -> bit_length_power_of_2 value <= 2 ^ k)%Z
  /\ bit_length_power_of_2 5 = 8%Z
  /\ bit_length_power_of_2 8 = 8%Z.
Proof.
  intros Hvalue. unfold bit_length_power_of_2 at 1 2 3 4.
  split; [reflexivity|]. split.
  { exists (bit_length (value - 1)). split; [apply bit_length_nonneg | reflexivity]. }
  destruct (Z.eq_dec value 1%Z) as [->|Hne].
  - split; [vm_compute; discriminate|].
    split; [|split; reflexivity].
    intros k Hk _. change (2 ^ bit_length (1 - 1))%Z with 1%Z.
    pose proof (Z.pow_pos_nonneg 2 k). lia.
  - assert (Hpos : (0 < value - 1)%Z) by lia.
    pose proof (bit_length_bounds _ Hpos) as [Hlow Hhigh].
    split; [lia|]. split; [|split; reflexivity].
    intros k Hk Hle.
    destruct (Z_le_gt_dec (bit_length (value - 1)) k) as [Hbk|Hbk].
    + apply Z.pow_le_mono_r; lia.
    + assert (2 ^ k <= 2 ^ (bit_length (value - 1) - 1))%Z
        by (apply Z.pow_le_mono_r; lia).
      lia.
Qed.

Lemma bit_length_power_of_2_smallest_witness :
  bit_length_power_of_2 5 = (2 ^ bit_length (5 - 1))%Z
  /\ (exists k, 0 <= k /\ bit_length_power_of_2 5 = 2 ^ k)%Z
  /\ (5 <= bit_length_power_of_2 5)%Z
  /\ (forall k, 0 <= k -> 5 <= 2 ^ k -> bit_length_power_of_2 5 <= 2 ^ k)%Z
  /\ bit_length_power_of_2 5 = 8%Z
  /\ bit_length_power_of_2 8 = 8%Z.
Proof. apply (bit_length_power_of_2_smallest 5). lia. Defined.

(** ** Splitting at the leftmost occurrence *)

Lemma string_app_cons c s t : String c s +:+ t = String c (s +:+ t).
Proof. reflexivity. Qed.

Lemma string_app_nil_l s : "" +:+ s = s.
Proof. reflexivity. Qed.

Lemma string_app_assoc s t u : (s +:+ t) +:+ u = s +:+ t +:+ u.
Proof.
  induction s as [|c s IH]; [reflexivity|].
  rewrite !(string_app_cons c), IH. reflexivity.
Qed.

Lemma strip_prefix_Some p s r :
  Py.strip_prefix p s = Some r <-> s = p +:+ r.
Proof.
  revert s. induction p as [|a p IH]; intros s.
  - rewrite string_app_nil_l. destruct s; simpl; split; congruence.
  - rewrite string_app_cons. destruct s as [|b s]; simpl; [split; discriminate|].
    destruct (Ascii.eqb_spec a b) as [->|Hab].
    + rewrite IH. split; congruence.
    + split; [discriminate | congruence].
Qed.

Lemma split_once_unfold sep s :
  Py.split_once sep s =
  match Py.strip_prefix sep s with
  | Some rest => Some ("", rest)
  | None =>
      match s with
      | "" => None
      | String c s' =>
          match Py.split_once sep s' with
          | Some (before, after) => Some (String c before, after)
          | None => None
          end
      end
  end.
Proof. destruct s; reflexivity. Qed.

Lemma split_once_Some sep s before after :
  Py.split_once sep s = Some (before, after) ->
  s = before +:+ sep +:+ after.
Proof.
  revert before. induction s as [|c s IH]; intros before;
    rewrite split_once_unfold;
    destruct (Py.strip_prefix sep _) as [rest|] eqn:E.
  - intros [= <- <-]. rewrite string_app_nil_l. by apply strip_prefix_Some.
  - discriminate.
  - intros [= <- <-]. rewrite string_app_nil_l. by apply strip_prefix_Some.
  - destruct (Py.split_once sep s) as [[b a]|]; [|discriminate].
    intros [= <- <-]. rewrite string_app_cons, <- (IH b); reflexivity.
Qed.

(** No occurrence starts before the one [split_once] cuts at. *)
Lemma split_once_leftmost sep s before after :
  Py.split_once sep s = Some (before, after) ->
  forall before' after',
    s = before' +:+ sep +:+ after' ->
    (String.length before <= String.length before')%nat.
Proof.
  revert before. induction s as [|c s IH]; intros before;
    rewrite split_once_unfold;
    destruct (Py.strip_prefix sep _) as [rest|] eqn:E.
  - intros [= <- <-] ? ? _. simpl. lia.
  - discriminate.
  - intros [= <- <-] ? ? _. simpl. lia.
  - destruct (Py.split_once sep s) as [[b a]|] eqn:Es; [|discriminate].
    intros [= <- <-] before' after' Hs.
    destruct before' as [|c' before'].
    + rewrite string_app_nil_l in Hs. apply strip_prefix_Some in Hs. congruence.
    + rewrite string_app_cons in Hs. injection Hs as -> Hs.
      simpl. specialize (IH b eq_refl _ _ Hs). lia.
Qed.

(** Every occurrence makes [split_once] succeed. *)
Lemma split_once_complete sep before' after' :
  exists before after,
    Py.split_once sep (before' +:+ sep +:+ after') = Some (before, after).
Proof.
  induction before' as [|c before' (b & a & IH)]; rewrite split_once_unfold.
  - rewrite string_app_nil_l, strip_prefix_app. eauto.
  - destruct (Py.strip_prefix sep _); [eauto|].
    rewrite string_app_cons, IH. eauto.
Qed.

Lemma string_app_same_length s1 t1 s2 t2 :
  s1 +:+ t1 = s2 +:+ t2 ->
  String.length s1 = String.length s2 ->
  s1 = s2 /\ t1 = t2.
Proof.
  revert s2. induction s1 as [|c s1 IH]; intros [|c' s2]; simpl;
    try discriminate.
  - auto.
  - rewrite !string_app_cons. intros [= -> H] [= Hlen].
    destruct (IH _ H Hlen) as [-> ->]. auto.
Qed.

(** [split_once] cuts at the first occurrence: where the separator occurs
    after [before'] and nowhere earlier, the cut is there. *)
Lemma split_once_first sep before' after' :
  (forall b a, before' +:+ sep +:+ after' = b +:+ sep +:+ a ->
               (String.length before' <= String.length b)%nat) ->
  Py.split_once sep (before' +:+ sep +:+ after') = Some (before', after').
Proof.
  intros Hfirst.
  destruct (split_once_complete sep before' after') as (b & a & E).
  pose proof (split_once_Some _ _ _ _ E) as Hs.
  pose proof (split_once_leftmost _ _ _ _ E _ _ eq_refl) as Hle.
  pose proof (Hfirst _ _ Hs) as Hge.
  destruct (string_app_same_length _ _ _ _ Hs) as [-> Ht]; [lia|].
  apply (inj (String.app sep)) in Ht as ->. exact E.
Qed.

Lemma contains_char c s :
  Py.contains (String c "") s = false
  <-> all_chars (fun a => negb (Ascii.eqb a c)) s = true.
Proof.
  split.
  - unfold Py.contains. induction s as [|a s IH]; [reflexivity|].
    rewrite split_once_unfold. cbn [Py.strip_prefix all_chars].
    rewrite (Ascii.eqb_sym c a).
    destruct (Ascii.eqb a c); [destruct s; discriminate|].
    destruct (Py.split_once _ s) as [[b r]|]; [discriminate|].
    intros _. apply IH. reflexivity.
  - intros H. unfold Py.contains. rewrite (split_once_absent _ _ H). reflexivity.
Qed.

Lemma split_max_head n sep s :
  exists x l, Py.split_max n sep s = x :: l.
Proof.
  destruct n; simpl; [eauto|].
  destruct (Py.split_once sep s) as [[b a]|]; eauto.
Qed.

Lemma index_split_0 sep s : returns (Py.index (Py.split sep s) 0).
Proof.
  unfold Py.split. destruct (split_max_head (String.length s) sep s) as (x & l & ->).
  exists x. reflexivity.
Qed.

Lemma split_max_last n sep s :
  returns (Py.index_last (Py.split_max n sep s)).
Proof.
  revert s. induction n as [|n IH]; intros s; simpl; [by exists s|].
  destruct (Py.split_once sep s) as [[b a]|]; [|by exists s].
  destruct (IH a) as [x Hx]. exists x. unfold Py.index_last in *.
  destruct (split_max_head n sep a) as (y & l & E). rewrite E in *.
  rewrite last_cons. destruct (last (y :: l)); [exact Hx | discriminate].
Qed.

(** ** [git_link_parse] *)

(** The working URL is the input itself, or what follows the separator
    ["git+"] at its leftmost occurrence. *)
Lemma git_url_of_cases repo :
  (Py.split_once "git+" repo = None /\ git_url_of repo = Ok repo)
  \/ (exists before after,
        Py.split_once "git+" repo = Some (before, after)
        /\ git_url_of repo = Ok after).
Proof.
  unfold git_url_of, Py.contains. cbn [Py.split_max].
  destruct (Py.split_once "git+" repo) as [[before after]|]; [right|left; auto].
  exists before, after. auto.
Qed.

Lemma git_url_of_suffix repo :
  exists before _git_url,
    git_url_of repo = Ok _git_url /\ repo = before +:+ _git_url.
Proof.
  destruct (git_url_of_cases repo) as [[_ H]|(before & after & E & H)].
  - exists "", repo. auto.
  - exists (before +:+ "git+"), after. split; [exact H|].
    rewrite string_app_assoc. exact (split_once_Some _ _ _ _ E).
Qed.

Lemma git_link_parse_url_default repo _git_url :
  no_at_sign _git_url = true ->
  exists link,
    git_link_parse_url repo _git_url = Ok link
    /\ GitLink.version link = "master"
    /\ GitLink.plugin_path link = None
    /\ GitLink.url link = _git_url
    /\ GitLink.original link = repo.
Proof.
  intros Hat. apply contains_char in Hat.
  unfold git_link_parse_url. rewrite Hat.
  change (Py.split "#" "master") with ["master"].
  cbn [mbind result_bind Py.index lookup list_lookup length Nat.ltb Nat.leb].
  destruct (index_split_0 ".git" (Py.basename (Py.rstrip "/" _git_url)))
    as [name_0 ->].
  eexists. split; [reflexivity|]. cbn. auto.
Qed.

(** C4: the documented example parses into its five fields; an input with
    no [@] gets the version ["master"] and no plugin path, as
    ["https://example.com/org/repo"] does. *)
Theorem git_link_parse_fields :
  git_link_parse
    "git+https://example.com/org/repo.git@v1.2#subdirectory=plugins/foo"
  = Ok {| GitLink.name := "repo";
          GitLink.version := "v1.2";
          GitLink.plugin_path := Some "plugins/foo";
          GitLink.url := "https://example.com/org/repo.git";
          GitLink.original :=
            "git+https://example.com/org/repo.git@v1.2#subdirectory=plugins/foo" |}
  /\ (forall repo,
        no_at_sign repo = true ->
        exists link,
          git_link_parse repo = Ok link
          /\ GitLink.version link = "master"
          /\ GitLink.plugin_path link = None
          /\ GitLink.original link = repo)
  /\ git_link_parse "https://example.com/org/repo"
     = Ok {| GitLink.name := "repo";
             GitLink.version := "master";
             GitLink.plugin_path := None;
             GitLink.url := "https://example.com/org/repo";
             GitLink.original := "https://example.com/org/repo" |}.
Proof.
  split; [vm_compute; reflexivity|]. split; [|vm_compute; reflexivity].
  intros repo Hat. unfold git_link_parse.
  destruct (git_url_of_suffix repo) as (before & _git_url & -> & Hrepo).
  cbn [mbind result_bind].
  assert (Hurl : no_at_sign _git_url = true).
  { unfold no_at_sign in *. rewrite Hrepo, all_chars_app in Hat.
    by apply andb_true_iff in Hat as [_ Hat]. }
  destruct (git_link_parse_url_default repo _ Hurl)
    as (link & -> & Hv & Hp & _ & Ho).
  exists link. auto.
Qed.

Lemma git_link_parse_fields_witness :
  exists link,
    git_link_parse "ssh://git.example.org/Team/Tool.git/" = Ok link
    /\ GitLink.version link = "master"
    /\ GitLink.plugin_path link = None
    /\ GitLink.original link = "ssh://git.example.org/Team/Tool.git/".
Proof.
  apply (proj1 (proj2 git_link_parse_fields)). reflexivity.
Defined.

(** C10: the marker ["git+"] is looked for anywhere in the input, not
    only at its start: when it first occurs after [before], the working
    URL is the text [after] it alone, and the link is parsed from there;
    so ["https://host/agit+x"] is parsed as the URL ["x"]. *)
Theorem git_link_parse_strips_through_marker before after :
  (forall b a,
      before +:+ "git+" +:+ after = b +:+ "git+" +:+ a ->
      (String.length before <= String.length b)%nat) ->
  git_url_of (before +:+ "git+" +:+ after) = Ok after
  /\ git_link_parse (before +:+ "git+" +:+ after)
     = git_link_parse_url (before +:+ "git+" +:+ after) after
  /\ git_url_of "https://host/agit+x" = Ok "x"
  /\ GitLink.url <$> git_link_parse "https://host/agit+x" = Ok "x".
Proof.
  intros Hfirst.
  assert (H : git_url_of (before +:+ "git+" +:+ after) = Ok after).
  { destruct (git_url_of_cases (before +:+ "git+" +:+ after))
      as [[E _]|(b & a & E & ->)];
      rewrite (split_once_first _ _ _ Hfirst) in E; congruence. }
  split; [exact H|]. split; [|split; vm_compute; reflexivity].
  unfold git_link_parse. rewrite H. reflexivity.
Qed.

Lemma git_link_parse_strips_through_marker_witness :
  git_url_of ("https://host/a" +:+ "git+" +:+ "x") = Ok "x"
  /\ git_link_parse ("https://host/a" +:+ "git+" +:+ "x")
     = git_link_parse_url ("https://host/a" +:+ "git+" +:+ "x") "x"
  /\ git_url_of "https://host/agit+x" = Ok "x"
  /\ GitLink.url <$> git_link_parse "https://host/agit+x" = Ok "x".
Proof.
  apply git_link_parse_strips_through_marker.
  intros b a H.
  apply (split_once_leftmost "git+" "https://host/agit+x" "https://host/a" "x"
           eq_refl _ _ H).
Defined.

(** ** [_deprecated] *)

(** C5: [_deprecated] raises the configuration error
    [AnsibleUndefinedVariable] as soon as one of [old_var_name],
    [new_var_name], [removed_in] is missing or empty (false in Python),
    whatever the other arguments are, and leaves the logger alone; with the
    three given, it returns [new_var] when [old_var] is undefined or empty,
    again without logging; otherwise it raises [RuntimeError] when [fatal]
    is true and returns [old_var] when it is not. *)
Theorem deprecated_contract
  (new_var old_var old_var_name new_var_name removed_in fatal : pyobj)
  (log : Logging.logger) :
  let call := _deprecated new_var old_var old_var_name new_var_name
                removed_in fatal log in
  (py_bool old_var_name = false \/ py_bool new_var_name = false
   \/ py_bool removed_in = false ->
   exists message, call = (Raise (AnsibleUndefinedVariable message), log))
  /\ (py_bool old_var_name = true -> py_bool new_var_name = true ->
      py_bool removed_in = true ->
      (is_undefined old_var = true \/ py_bool old_var = false ->
       call = (Ok new_var, log))
      /\ (is_undefined old_var = false -> py_bool old_var = true ->
          (is_fatal fatal = true ->
           exists message, call.1 = Raise (RuntimeError message))
          /\ (is_fatal fatal = false -> call.1 = Ok old_var)))
  /\ is_fatal (PyBool true) = true
  /\ is_fatal (PyBool false) = false.
Proof.
  intros call. subst call. unfold _deprecated.
  split; [|split; [|split; reflexivity]].
  - intros Hmissing.
    destruct (py_bool old_var_name); cbn [negb]; [|eauto].
    destruct (py_bool new_var_name); cbn [negb]; [|eauto].
    destruct (py_bool removed_in); cbn [negb]; [|eauto].
    destruct Hmissing as [?|[?|?]]; discriminate.
  - intros -> -> ->. cbn [negb]. split.
    + intros [-> | ->]; [reflexivity|].
      rewrite orb_true_r. reflexivity.
    + intros -> ->. cbn [negb orb]. split; intros ->; cbn [fst]; eauto.
Qed.

Lemma deprecated_contract_witness :
  (exists message,
      _deprecated (PyInt 5) (PyInt 7) (PyStr "") (PyStr "new") (PyStr "Z")
        (PyBool true) (Logging.Logger None [] [])
      = (Raise (AnsibleUndefinedVariable message), Logging.Logger None [] []))
  /\ _deprecated (PyInt 5) PyUndefined (PyStr "old") (PyStr "new") (PyStr "Z")
       (PyBool true) (Logging.Logger None [] [])
     = (Ok (PyInt 5), Logging.Logger None [] [])
  /\ (exists message,
        (_deprecated (PyInt 5) (PyInt 7) (PyStr "old") (PyStr "new") (PyStr "Z")
           (PyBool true) (Logging.Logger None [] [])).1
        = Raise (RuntimeError message))
  /\ (_deprecated (PyInt 5) (PyInt 7) (PyStr "old") (PyStr "new") (PyStr "Z")
        (PyBool false) (Logging.Logger None [] [])).1
     = Ok (PyInt 7).
Proof.
  split; [|split; [|split]].
  - destruct (deprecated_contract (PyInt 5) (PyInt 7) (PyStr "") (PyStr "new")
                (PyStr "Z") (PyBool true) (Logging.Logger None [] []))
      as (Hmissing & _).
    apply Hmissing. left. reflexivity.
  - destruct (deprecated_contract (PyInt 5) PyUndefined (PyStr "old")
                (PyStr "new") (PyStr "Z") (PyBool true)
                (Logging.Logger None [] []))
      as (_ & Hgiven & _).
    destruct (Hgiven eq_refl eq_refl eq_refl) as (Hunused & _).
    apply Hunused. left. reflexivity.
  - destruct (deprecated_contract (PyInt 5) (PyInt 7) (PyStr "old")
                (PyStr "new") (PyStr "Z") (PyBool true)
                (Logging.Logger None [] []))
      as (_ & Hgiven & _).
    destruct (Hgiven eq_refl eq_refl eq_refl) as (_ & Hused).
    destruct (Hused eq_refl eq_refl) as (Hfatal & _).
    apply Hfatal. reflexivity.
  - destruct (deprecated_contract (PyInt 5) (PyInt 7) (PyStr "old")
                (PyStr "new") (PyStr "Z") (PyBool false)
                (Logging.Logger None [] []))
      as (_ & Hgiven & _).
    destruct (Hgiven eq_refl eq_refl eq_refl) as (_ & Hused).
    destruct (Hused eq_refl eq_refl) as (_ & Hwarn).
    apply Hwarn. reflexivity.
Defined.

(** ** Sets and sorting *)

Lemma list_of_set_exists (s : gset string) : exists l, Py.list_of_set s l.
Proof. exists (elements s). unfold Py.list_of_set. reflexivity. Qed.

Lemma list_of_set_elem_of (s : gset string) l x :
  Py.list_of_set s l -> x ∈ l <-> x ∈ s.
Proof. unfold Py.list_of_set. intros ->. apply elem_of_elements. Qed.

Lemma list_of_set_NoDup (s : gset string) l : Py.list_of_set s l -> NoDup l.
Proof. unfold Py.list_of_set. intros ->. apply NoDup_elements. Qed.

Lemma sorted_Sorted l : Sorted String.le (Py.sorted l).
Proof. apply (Sorted_merge_sort String.le). Qed.

Lemma sorted_Permutation l : Py.sorted l ≡ₚ l.
Proof. apply merge_sort_Permutation. Qed.

(** The result of [sorted] does not depend on the order of its input. *)
Lemma sorted_order_irrelevant l1 l2 : l1 ≡ₚ l2 -> Py.sorted l1 = Py.sorted l2.
Proof.
  intros Hp. apply (Sorted_unique String.le); try apply sorted_Sorted.
  rewrite !sorted_Permutation. exact Hp.
Qed.

(** ** [filtered_list] *)

(** C9: every result of [filtered_list] lists, each once and in no
    specified order, the lower-cased elements of [list_one] that differ,
    case folded, from every element of [list_two]; a result exists; and
    [filtered_list ["A"; "b"] ["a"]] can only be [["b"]]. *)
Theorem filtered_list_difference (list_one list_two : list string) :
  (exists out, filtered_list list_one list_two out)
  /\ (forall out,
        filtered_list list_one list_two out ->
        NoDup out
        /\ forall x, x ∈ out <->
             exists a, a ∈ list_one /\ x = Py.lower a
                       /\ forall b, b ∈ list_two -> Py.lower b <> Py.lower a)
  /\ (forall out, filtered_list ["A"; "b"] ["a"] out -> out = ["b"]).
Proof.
  unfold filtered_list, _lower_set_lists. split; [|split].
  - apply list_of_set_exists.
  - intros out Hout. split; [by eapply list_of_set_NoDup|].
    intros x. rewrite (list_of_set_elem_of _ _ _ Hout).
    rewrite elem_of_difference, !elem_of_list_to_set, !list_elem_of_fmap.
    split.
    + intros [(a & -> & Ha) Hb]. exists a. repeat split; [exact Ha|].
      intros b Hb' E. apply Hb. exists b. auto.
    + intros (a & Ha & -> & Hb). split; [eauto|].
      intros (b & E & Hb'). by apply (Hb b).
  - intros out Hout. unfold Py.list_of_set in Hout.
    vm_compute in Hout. by apply Permutation_singleton_r in Hout.
Qed.

Lemma filtered_list_difference_witness :
  NoDup ["c"; "b"]
  /\ forall x, x ∈ ["c"; "b"] <->
       exists a, a ∈ ["A"; "b"; "C"] /\ x = Py.lower a
                 /\ forall b, b ∈ ["a"] -> Py.lower b <> Py.lower a.
Proof.
  apply (proj1 (proj2 (filtered_list_difference ["A"; "b"; "C"] ["a"]))).
  unfold filtered_list, _lower_set_lists, Py.list_of_set.
  vm_compute elements.
  first [reflexivity | apply perm_swap].
Defined.

(** ** The parser always returns, and the name is a prefix of its input *)

Lemma string_app_nil_r s : s +:+ "" = s.
Proof.
  induction s as [|c s IH]; [reflexivity|].
  rewrite string_app_cons, IH. reflexivity.
Qed.

Lemma split_max_head_prefix n sep s :
  exists x l, Py.split_max n sep s = x :: l /\ exists rest, s = x +:+ rest.
Proof.
  destruct n; cbn [Py.split_max].
  - exists s, []. split; [reflexivity|]. exists "". by rewrite string_app_nil_r.
  - destruct (Py.split_once sep s) as [[b a]|] eqn:E.
    + exists b, (Py.split_max n sep a). split; [reflexivity|].
      exists (sep +:+ a). by apply split_once_Some.
    + exists s, []. split; [reflexivity|]. exists "". by rewrite string_app_nil_r.
Qed.

Lemma search_alternation_spaces_unfold alts s :
  Py.search_alternation_spaces alts s =
  match Py.match_alternation alts s with
  | Some (group, rest) => Some ("", group, Py.skip_spaces rest)
  | None =>
      match s with
      | "" => None
      | String c s' =>
          match Py.search_alternation_spaces alts s' with
          | Some (before, group, after) => Some (String c before, group, after)
          | None => None
          end
      end
  end.
Proof. destruct s; reflexivity. Qed.

Lemma search_alternation_spaces_prefix alts s before group after :
  Py.search_alternation_spaces alts s = Some (before, group, after) ->
  exists rest, s = before +:+ rest.
Proof.
  revert before group after.
  induction s as [|c s IH]; intros before group after;
    rewrite search_alternation_spaces_unfold;
    destruct (Py.match_alternation alts _) as [[g r]|].
  - intros [= <- _ _]. by exists "".
  - discriminate.
  - intros [= <- _ _]. by exists (String c s).
  - destruct (Py.search_alternation_spaces alts s) as [[[b g] a]|];
      [|discriminate].
    intros [= <- _ _]. destruct (IH b g a eq_refl) as [rest ->].
    by exists rest.
Qed.

Lemma re_split_max_head_prefix n alts s :
  exists x l, Py.re_split_max n alts s = x :: l /\ exists rest, s = x +:+ rest.
Proof.
  destruct n; cbn [Py.re_split_max].
  - exists s, []. split; [reflexivity|]. exists "". by rewrite string_app_nil_r.
  - destruct (Py.search_alternation_spaces alts s) as [[[b g] a]|] eqn:E.
    + exists b, (g :: Py.re_split_max n alts a). split; [reflexivity|].
      by eapply search_alternation_spaces_prefix.
    + exists s, []. split; [reflexivity|]. exists "". by rewrite string_app_nil_r.
Qed.

Lemma index_optional {A} (l : list A) :
  exists o, (if (1 <? length l)%nat then Some <$> Py.index l 1 else Ok None)
            = Ok o.
Proof.
  destruct l as [|x [|y l]]; cbn; eauto.
Qed.

Lemma pip_requirement_split_returns requirement :
  exists name versions marker,
    _pip_requirement_split requirement = Ok (name, versions, marker)
    /\ exists rest, requirement = name +:+ rest.
Proof.
  unfold _pip_requirement_split, Py.split, Py.re_split.
  destruct (split_max_head_prefix (String.length requirement) ";" requirement)
    as (x & l & E & r1 & Hr1).
  rewrite E. cbn [Py.index lookup list_lookup mbind result_bind].
  destruct (re_split_max_head_prefix (String.length x) version_descriptors x)
    as (y & l' & E' & r2 & Hr2).
  rewrite E'. cbn [Py.index lookup list_lookup mbind result_bind].
  destruct (index_optional (x :: l)) as [marker ->].
  destruct (index_optional (y :: l')) as [versions ->].
  cbn [mbind result_bind].
  exists y, versions, marker. split; [reflexivity|].
  exists (r2 +:+ r1). rewrite Hr1, Hr2 at 1. apply string_app_assoc.
Qed.

(** ** Lower-cased strings *)

Lemma lower_char_not_upper c : Py.is_upper (Py.lower_char c) = false.
Proof.
  unfold Py.lower_char. destruct (Py.is_upper c) eqn:Hc; [|exact Hc].
  destruct c as [[] [] [] [] [] [] [] []]; try discriminate; reflexivity.
Qed.

Lemma lower_is_lowered s : is_lowered (Py.lower s) = true.
Proof.
  induction s as [|c s IH]; [reflexivity|].
  unfold is_lowered in *. cbn [Py.lower all_chars].
  rewrite lower_char_not_upper, IH. reflexivity.
Qed.

Lemma lower_lowered s : is_lowered s = true -> Py.lower s = s.
Proof.
  unfold is_lowered. induction s as [|c s IH]; [reflexivity|].
  cbn [all_chars Py.lower]. rewrite andb_true_iff, negb_true_iff.
  intros [Hc Hs]. unfold Py.lower_char. rewrite Hc, (IH Hs). reflexivity.
Qed.

Lemma is_lowered_prefix s t : is_lowered (s +:+ t) = true -> is_lowered s = true.
Proof.
  unfold is_lowered. rewrite all_chars_app, andb_true_iff. tauto.
Qed.

(** ** [pip_requirement_names] *)

Lemma truthy_true s : Py.truthy s = true <-> s <> "".
Proof.
  unfold Py.truthy. destruct (String.eqb_spec s ""); split;
    try congruence; try discriminate. reflexivity.
Qed.

Lemma named_requirements_loop_spec named_requirements requirements :
  exists named,
    named_requirements_loop named_requirements requirements = Ok named
    /\ forall x, x ∈ named <->
         x ∈ named_requirements \/ kept_name requirements x.
Proof.
  revert named_requirements.
  induction requirements as [|requirement requirements IH];
    intros named_requirements; cbn [named_requirements_loop].
  - exists named_requirements. split; [reflexivity|].
    intros x. split; [auto|]. intros [H|(r & ? & ? & ? & H & _)]; [exact H|].
    by apply elem_of_nil in H.
  - destruct (pip_requirement_split_returns requirement)
      as (name & versions & marker & E & _).
    rewrite E. cbn [mbind result_bind].
    destruct (Py.truthy name && negb (Py.startswith name "#")) eqn:Hkeep.
    + destruct (IH (named_requirements ++ [Py.lower name])) as (named & -> & Hn).
      exists named. split; [reflexivity|]. intros x. rewrite Hn, elem_of_app.
      apply andb_true_iff in Hkeep as [Ht Hs].
      apply truthy_true in Ht. apply negb_true_iff in Hs.
      split.
      * intros [[H|H]|(r & n & v & m & Hr & H)]; [auto| |].
        -- apply list_elem_of_singleton in H as ->. right.
           exists requirement, name, versions, marker.
           repeat split; auto. apply elem_of_cons. auto.
        -- right. exists r, n, v, m. split; [|exact H].
           apply elem_of_cons. auto.
      * intros [H|(r & n & v & m & Hr & Hsplit & H)]; [auto|].
        apply elem_of_cons in Hr as [->|Hr].
        -- rewrite E in Hsplit. injection Hsplit as <- <- <-.
           left. right. apply list_elem_of_singleton. tauto.
        -- right. exists r, n, v, m. auto.
    + destruct (IH named_requirements) as (named & -> & Hn).
      exists named. split; [reflexivity|]. intros x. rewrite Hn.
      split.
      * intros [H|(r & n & v & m & Hr & H)]; [auto|].
        right. exists r, n, v, m. split; [|exact H]. apply elem_of_cons. auto.
      * intros [H|(r & n & v & m & Hr & Hsplit & Hne & Hst & Hx)]; [auto|].
        apply elem_of_cons in Hr as [->|Hr].
        -- rewrite E in Hsplit. injection Hsplit as <- <- <-.
           apply truthy_true in Hne. rewrite Hne, Hst in Hkeep. discriminate.
        -- right. exists r, n, v, m. auto.
Qed.

(** C7: [pip_requirement_names] returns, whatever the order in which the
    set is enumerated, the list in ascending order and without duplicates
    of the lower-cased parsed names that are neither empty nor start with
    [#]; so [["#comment"; "Foo>=1.0"; "bar"]] gives [["bar"; "foo"]]. *)
Theorem pip_requirement_names_sorted_names (requirements : list string) :
  (exists out, pip_requirement_names requirements (Ok out))
  /\ (forall r,
        pip_requirement_names requirements r ->
        exists out,
          r = Ok out
          /\ Sorted String.le out
          /\ NoDup out
          /\ forall x, x ∈ out <-> kept_name requirements x)
  /\ (forall r,
        pip_requirement_names ["#comment"; "Foo>=1.0"; "bar"] r ->
        r = Ok ["bar"; "foo"]).
Proof.
  destruct (named_requirements_loop_spec [] requirements) as (named & E & Hn).
  split; [|split].
  - exists (Py.sorted (elements (list_to_set named : gset string))).
    eapply pip_requirement_names_return; [exact E|]. by unfold Py.list_of_set.
  - intros r Hr.
    destruct Hr as [named' l E' Hl | e E']; [|congruence].
    assert (named' = named) as -> by congruence.
    exists (Py.sorted l). split; [reflexivity|].
    split; [apply sorted_Sorted|]. split.
    + rewrite sorted_Permutation. by eapply list_of_set_NoDup.
    + intros x. rewrite sorted_Permutation, (list_of_set_elem_of _ _ _ Hl).
      rewrite elem_of_list_to_set, Hn. split; [|auto].
      intros [H|H]; [by apply elem_of_nil in H | exact H].
  - intros r Hr.
    destruct Hr as [named' l E' Hl | e E']; [|vm_compute in E'; discriminate].
    vm_compute in E'. injection E' as <-.
    rewrite (sorted_order_irrelevant _ _ Hl). vm_compute. reflexivity.
Qed.

Lemma pip_requirement_names_sorted_names_witness :
  exists out,
    Ok (Py.sorted ["bar"; "foo"]) = Ok out
    /\ Sorted String.le out
    /\ NoDup out
    /\ forall x, x ∈ out <-> kept_name ["#comment"; "Foo>=1.0"; "bar"] x.
Proof.
  apply (proj1 (proj2 (pip_requirement_names_sorted_names
                         ["#comment"; "Foo>=1.0"; "bar"]))).
  apply (pip_requirement_names_return _ ["foo"; "bar"]).
  - reflexivity.
  - unfold Py.list_of_set. vm_compute elements.
    first [reflexivity | apply perm_swap].
Defined.

(** ** [pip_constraint_update] against the merge of the specification *)

Lemma parsed_name_lowered entry :
  is_lowered entry = true -> Py.lower (parsed_name entry) = parsed_name entry.
Proof.
  intros Hl. unfold parsed_name.
  destruct (pip_requirement_split_returns entry)
    as (name & versions & marker & -> & rest & Hrest).
  apply lower_lowered. rewrite Hrest in Hl. by apply is_lowered_prefix in Hl.
Qed.

Lemma same_name_lowered entry override :
  is_lowered entry = true -> is_lowered override = true ->
  same_name entry override = String.eqb (parsed_name override) (parsed_name entry).
Proof.
  intros He Ho. unfold same_name.
  rewrite !parsed_name_lowered by assumption. apply String.eqb_sym.
Qed.

(** The inner loop finds the first entry of the wanted name. *)
Lemma first_same_name_spec item2_name _list_one :
  (first_same_name item2_name _list_one = Ok None
   /\ Forall (fun x => String.eqb item2_name (parsed_name x) = false) _list_one)
  \/ (exists before item1 after,
        _list_one = before ++ item1 :: after
        /\ Forall (fun x => String.eqb item2_name (parsed_name x) = false) before
        /\ String.eqb item2_name (parsed_name item1) = true
        /\ first_same_name item2_name _list_one = Ok (Some item1)).
Proof.
  induction _list_one as [|x l IH]; cbn [first_same_name].
  - left. split; [reflexivity | constructor].
  - unfold parsed_name in *.
    destruct (pip_requirement_split_returns x) as (n & v & m & E & _).
    rewrite E. cbn [mbind result_bind].
    destruct (String.eqb item2_name n) eqn:Hn.
    + right. exists [], x, l. rewrite E.
      repeat split; [constructor | exact Hn].
    + destruct IH as [[-> Hall]|(before & item1 & after & -> & Hb & Hi & ->)].
      * left. split; [reflexivity|]. constructor; [by rewrite E | exact Hall].
      * right. exists (x :: before), item1, after.
        repeat split; [|exact Hi]. constructor; [by rewrite E | exact Hb].
Qed.

Lemma list_index_first before x after :
  Forall (fun y => String.eqb y x = false) before ->
  Py.list_index x (before ++ x :: after) = Ok (length before).
Proof.
  induction 1 as [|y before Hy _ IH]; cbn [Py.list_index app length].
  - rewrite String.eqb_refl. reflexivity.
  - rewrite Hy, IH. reflexivity.
Qed.

Lemma setitem_middle before x after y :
  setitem (before ++ x :: after) (length before) y = Ok (before ++ y :: after).
Proof.
  unfold setitem.
  assert ((length before <? length (before ++ x :: after))%nat = true) as ->.
  { apply Nat.ltb_lt. rewrite length_app. simpl. lia. }
  f_equal. induction before as [|z before IH]; [reflexivity|].
  cbn [app length]. cbn. f_equal. exact IH.
Qed.

Lemma replace_or_append_absent override base :
  Forall (fun x => same_name x override = false) base ->
  replace_or_append override base = base ++ [override].
Proof.
  induction 1 as [|x base Hx _ IH]; cbn [replace_or_append app]; [reflexivity|].
  rewrite Hx, IH. reflexivity.
Qed.

Lemma replace_or_append_present override before entry after :
  Forall (fun x => same_name x override = false) before ->
  same_name entry override = true ->
  replace_or_append override (before ++ entry :: after)
  = before ++ override :: after.
Proof.
  intros Hb He.
  induction Hb as [|x before Hx _ IH]; cbn [replace_or_append app].
  - rewrite He. reflexivity.
  - rewrite Hx, IH. reflexivity.
Qed.

(** One turn of the loop does what the specification asks of an
    override, on lower-cased entries. *)
Lemma update_with_merge_override _list_one item2 :
  Forall (fun x => is_lowered x = true) _list_one ->
  is_lowered item2 = true ->
  update_with _list_one item2 = Ok (merge_override _list_one item2).
Proof.
  intros Hl1 Hl2. unfold update_with, merge_override, has_version_spec.
  pose proof (fun x => same_name_lowered x item2) as Hsame.
  unfold parsed_name at 1 in Hsame.
  destruct (pip_requirement_split_returns item2)
    as (item2_name & item2_versions & marker & E & _).
  rewrite E in *. cbn [mbind result_bind].
  destruct (truthy_versions item2_versions); [|reflexivity].
  destruct (first_same_name_spec item2_name _list_one)
    as [[-> Hall]|(before & item1 & after & -> & Hb & Hi & ->)];
    cbn [mbind result_bind].
  - rewrite replace_or_append_absent; [reflexivity|].
    rewrite Forall_forall in *. intros x Hx.
    rewrite Hsame by auto. auto.
  - apply Forall_app in Hl1 as [Hlb Hla]. apply Forall_cons in Hla as [Hli Hla].
    rewrite list_index_first.
    + cbn [mbind result_bind]. rewrite setitem_middle.
      rewrite replace_or_append_present; [reflexivity| |].
      * rewrite Forall_forall in *. intros x Hx. rewrite Hsame by auto. auto.
      * rewrite Hsame by auto. exact Hi.
    + rewrite Forall_forall in *. intros y Hy.
      destruct (String.eqb_spec y item1) as [->|]; [|reflexivity].
      rewrite (Hb _ Hy) in Hi. discriminate.
Qed.

Lemma replace_or_append_lowered override base :
  Forall (fun x => is_lowered x = true) base ->
  is_lowered override = true ->
  Forall (fun x => is_lowered x = true) (replace_or_append override base).
Proof.
  intros Hb Ho. induction Hb as [|x base Hx Hb IH]; cbn [replace_or_append].
  - by constructor.
  - destruct (same_name x override); by constructor.
Qed.

Lemma merge_override_lowered base override :
  Forall (fun x => is_lowered x = true) base ->
  is_lowered override = true ->
  Forall (fun x => is_lowered x = true) (merge_override base override).
Proof.
  intros Hb Ho. unfold merge_override.
  destruct (has_version_spec override); [|exact Hb].
  by apply replace_or_append_lowered.
Qed.

Lemma update_loop_merge _list_one _list_two :
  Forall (fun x => is_lowered x = true) _list_one ->
  Forall (fun x => is_lowered x = true) _list_two ->
  update_loop _list_one _list_two = Ok (foldl merge_override _list_one _list_two)
  /\ Forall (fun x => is_lowered x = true)
       (foldl merge_override _list_one _list_two).
Proof.
  intros H1 H2. revert _list_one H1.
  induction H2 as [|item2 rest Hi Hr IH]; intros _list_one H1;
    cbn [update_loop foldl]; [auto|].
  rewrite update_with_merge_override by assumption. cbn [mbind result_bind].
  apply IH. by apply merge_override_lowered.
Qed.

Lemma lowered_enumeration (l e : list string) :
  Py.list_of_set (list_to_set (Py.lower <$> l)) e ->
  Forall (fun x => is_lowered x = true) e.
Proof.
  intros He. apply Forall_forall. intros x Hx.
  apply (list_of_set_elem_of _ _ _ He) in Hx.
  apply elem_of_list_to_set, list_elem_of_fmap in Hx as (y & -> & _).
  apply lower_is_lowered.
Qed.

Lemma pip_constraint_update_cases list_one list_two r :
  pip_constraint_update list_one list_two r ->
  exists _list_one _list_two,
    Py.list_of_set (list_to_set (Py.lower <$> list_one)) _list_one
    /\ Py.list_of_set (list_to_set (Py.lower <$> list_two)) _list_two
    /\ r = Ok (merge_spec _list_one _list_two)
    /\ Forall (fun x => is_lowered x = true)
         (foldl merge_override _list_one _list_two).
Proof.
  intros [_list_one _list_two H1 H2]. cbn [_lower_set_lists fst snd] in H1, H2.
  exists _list_one, _list_two.
  destruct (update_loop_merge _list_one _list_two) as [-> Hl];
    eauto using lowered_enumeration.
Qed.

(** C2: [pip_constraint_update] returns; each of its results is, for some
    enumeration of the two lower-cased sets, the merge of the
    specification: every override with a version spec replaces the first
    base entry of the same name (up to case) or is appended when there is
    none, an override without one is ignored, and the outcome is sorted
    in ascending order.  The documented example has one result. *)
Theorem pip_constraint_update_merge (base overrides : list string) :
  (exists out, pip_constraint_update base overrides (Ok out))
  /\ (forall r,
        pip_constraint_update base overrides r ->
        exists _list_one _list_two,
          Py.list_of_set (list_to_set (Py.lower <$> base)) _list_one
          /\ Py.list_of_set (list_to_set (Py.lower <$> overrides)) _list_two
          /\ r = Ok (merge_spec _list_one _list_two)
          /\ Sorted String.le (merge_spec _list_one _list_two))
  /\ (forall r,
        pip_constraint_update ["foo==1.0"; "bar==2.0"] ["FOO>=2.0"; "baz"] r ->
        r = Ok ["bar==2.0"; "foo>=2.0"]).
Proof.
  split; [|split].
  - destruct (list_of_set_exists (_lower_set_lists base overrides).1) as [l1 H1].
    destruct (list_of_set_exists (_lower_set_lists base overrides).2) as [l2 H2].
    pose proof (pip_constraint_update_intro _ _ _ _ H1 H2) as H.
    destruct (pip_constraint_update_cases _ _ _ H) as (? & ? & _ & _ & E & _).
    rewrite E in H. eauto.
  - intros r Hr.
    destruct (pip_constraint_update_cases _ _ _ Hr)
      as (l1 & l2 & H1 & H2 & -> & _).
    exists l1, l2. repeat split; auto. apply sorted_Sorted.
  - intros r Hr.
    destruct (pip_constraint_update_cases _ _ _ Hr)
      as (l1 & l2 & H1 & H2 & -> & _).
    unfold Py.list_of_set in H1, H2.
    vm_compute elements in H1. vm_compute elements in H2.
    symmetry in H1, H2.
    apply Permutation_length_2_inv in H1 as [-> | ->];
      apply Permutation_length_2_inv in H2 as [-> | ->];
      vm_compute; reflexivity.
Qed.

Lemma pip_constraint_update_merge_witness :
  exists _list_one _list_two,
    Py.list_of_set (list_to_set (Py.lower <$> ["foo==1.0"; "bar==2.0"]))
      _list_one
    /\ Py.list_of_set (list_to_set (Py.lower <$> ["FOO>=2.0"; "baz"]))
         _list_two
    /\ Py.sorted <$> update_loop ["foo==1.0"; "bar==2.0"] ["baz"; "foo>=2.0"]
       = Ok (merge_spec _list_one _list_two)
    /\ Sorted String.le (merge_spec _list_one _list_two).
Proof.
  apply (proj1 (proj2 (pip_constraint_update_merge
                         ["foo==1.0"; "bar==2.0"] ["FOO>=2.0"; "baz"]))).
  apply pip_constraint_update_intro;
    unfold Py.list_of_set; cbn [_lower_set_lists fst snd];
    vm_compute elements; first [reflexivity | apply perm_swap].
Defined.

(** C3: every string of every result of [pip_constraint_update] is lower
    case: it has no upper-case letter, and lower-casing leaves it as it
    is, whatever the case of the inputs. *)
Theorem pip_constraint_update_lower_case (list_one list_two : list string) r :
  pip_constraint_update list_one list_two r ->
  exists out,
    r = Ok out
    /\ Forall (fun x => is_lowered x = true /\ Py.lower x = x) out.
Proof.
  intros Hr.
  destruct (pip_constraint_update_cases _ _ _ Hr)
    as (l1 & l2 & _ & _ & -> & Hl).
  eexists. split; [reflexivity|].
  unfold merge_spec. rewrite Forall_forall in *. intros x Hx.
  rewrite sorted_Permutation in Hx.
  split; [auto | apply lower_lowered; auto].
Qed.

Lemma pip_constraint_update_lower_case_witness :
  exists out,
    Py.sorted <$> update_loop ["pbr==1.0"; "six>=1"] ["pbr<2"; "tox"] = Ok out
    /\ Forall (fun x => is_lowered x = true /\ Py.lower x = x) out.
Proof.
  apply (pip_constraint_update_lower_case ["PBR==1.0"; "Six>=1"] ["Tox"; "pbr<2"]).
  apply pip_constraint_update_intro;
    unfold Py.list_of_set; cbn [_lower_set_lists fst snd];
    vm_compute elements; first [reflexivity | apply perm_swap].
Defined.

(** ** Which filters always return *)

Lemma index_last_split sep s : returns (Py.index_last (Py.split sep s)).
Proof. apply split_max_last. Qed.

Lemma git_link_parse_url_returns repo _git_url :
  returns (git_link_parse_url repo _git_url).
Proof.
  unfold git_link_parse_url.
  assert (Hsplit : exists url branch,
             (if Py.contains "@" _git_url
              then Py.unpack2 (Py.split_max 1 "@" _git_url)
              else Ok (_git_url, "master")) = Ok (url, branch)).
  { unfold Py.contains. cbn [Py.split_max].
    destruct (Py.split_once "@" _git_url) as [[b a]|]; cbn; eauto. }
  destruct Hsplit as (url & branch & ->). cbn [mbind result_bind].
  destruct (index_split_0 "#" branch) as [branch_0 ->].
  cbn [mbind result_bind].
  assert (Hplugin : exists plugin_path,
             (if (1 <? length (Py.split "#" branch))%nat then
                last_fragment ← Py.index_last (Py.split "#" branch);
                if Py.contains "subdirectory=" last_fragment then
                  value ← Py.index_last (Py.split "subdirectory=" last_fragment);
                  Some <$> Py.index (Py.split "&" value) 0
                else Ok None
              else Ok None) = Ok plugin_path).
  { destruct (1 <? length (Py.split "#" branch))%nat; [|eauto].
    destruct (index_last_split "#" branch) as [fragment ->].
    cbn [mbind result_bind].
    destruct (Py.contains "subdirectory=" fragment); [|eauto].
    destruct (index_last_split "subdirectory=" fragment) as [value ->].
    cbn [mbind result_bind].
    destruct (index_split_0 "&" value) as [path ->]. cbn. eauto. }
  destruct Hplugin as [plugin_path ->]. cbn [mbind result_bind].
  destruct (index_split_0 ".git" (Py.basename (Py.rstrip "/" url)))
    as [name_0 ->].
  cbn [mbind result_bind]. eexists. reflexivity.
Qed.

Lemma git_link_parse_returns repo : returns (git_link_parse repo).
Proof.
  unfold git_link_parse.
  destruct (git_url_of_suffix repo) as (before & _git_url & -> & _).
  apply git_link_parse_url_returns.
Qed.

(** The five filters that work on byte strings and lists of them have no
    failure path: each indexing and unpacking they do is in range. *)
Theorem string_filters_return :
  (forall requirement, returns (_pip_requirement_split requirement))
  /\ (forall requirements r,
        pip_requirement_names requirements r -> returns r)
  /\ (forall list_one list_two r,
        pip_constraint_update list_one list_two r -> returns r)
  /\ (forall list_one list_two, exists out, filtered_list list_one list_two out)
  /\ (forall repo, returns (git_link_parse repo)).
Proof.
  split; [|split; [|split; [|split]]].
  - intros requirement.
    destruct (pip_requirement_split_returns requirement)
      as (n & v & m & E & _).
    by exists (n, v, m).
  - intros requirements r Hr.
    destruct Hr as [named l _ _ | e E]; [by eexists|].
    destruct (named_requirements_loop_spec [] requirements) as (named & E' & _).
    congruence.
  - intros list_one list_two r Hr.
    destruct (pip_constraint_update_cases _ _ _ Hr) as (? & ? & _ & _ & -> & _).
    eexists. reflexivity.
  - intros list_one list_two. unfold filtered_list, _lower_set_lists.
    apply list_of_set_exists.
  - apply git_link_parse_returns.
Qed.

(** ** [string_2_int] *)

Lemma int36_digits_hex acc s :
  all_hex s = true -> returns (int36_digits acc s).
Proof.
  revert acc. induction s as [|c s IH]; intros acc; cbn [all_hex int36_digits].
  - intros _. by exists acc.
  - rewrite andb_true_iff. intros [Hc Hs].
    assert (Hd : exists d, digit36 c = Some d).
    { destruct c as [[] [] [] [] [] [] [] []]; try discriminate Hc;
        vm_compute; eauto. }
    destruct Hd as [d ->]. apply IH, Hs.
Qed.

Section HashingProperties.

Variable sha256_hexdigest : string -> string.
Hypothesis sha256_hexdigest_format :
  forall data, is_hexdigest (sha256_hexdigest data).

(** On a [unicode] string, and on a [str] of ASCII bytes, [string_2_int]
    returns an integer from 0 to 10239. *)
Lemma string_2_int_returns text :
  (forall bytes, text = Str bytes -> is_ascii bytes = true) ->
  exists n, string_2_int sha256_hexdigest text = Ok n /\ (0 <= n < 10240)%Z.
Proof.
  intros Hascii. unfold string_2_int.
  assert (Henc : exists data, encode_utf8 text = Ok data).
  { destruct text as [bytes|code_points]; cbn [encode_utf8]; [|eauto].
    rewrite (Hascii bytes eq_refl). eauto. }
  destruct Henc as [data ->]. cbn [mbind result_bind].
  destruct (sha256_hexdigest_format data) as [Hlen Hhex].
  unfold int36. destruct (sha256_hexdigest data) as [|c s] eqn:E;
    [discriminate Hlen|].
  destruct (int36_digits_hex 0 _ Hhex) as [n ->]. cbn [mbind result_bind].
  exists (n mod 10240)%Z. split; [reflexivity|].
  apply Z.mod_pos_bound. lia.
Qed.

End HashingProperties.

Lemma string_2_int_returns_witness :
  exists n,
    string_2_int
      (fun _ => "0000000000000000000000000000000000000000000000000000000000000000")
      (Unicode [99; 97; 102; 233]%N)
    = Ok n
    /\ (0 <= n < 10240)%Z.
Proof.
  apply string_2_int_returns.
  - intros data. split; reflexivity.
  - intros bytes H. discriminate H.
Defined.

(** C6 fails at [string_2_int]: given a [str] with a byte above 127 (here
    the two bytes of a UTF-8 encoded e-acute), [string.encode('utf-8')]
    raises [UnicodeDecodeError], which [except AttributeError] does not
    catch, so the filter raises instead of returning. *)
Theorem string_2_int_raises_on_non_ascii_str
  (sha256_hexdigest : string -> string) :
  string_2_int sha256_hexdigest (Str (String "195" (String "169" "")))
  = Raise UnicodeDecodeError.
Proof. reflexivity. Qed.

(** * Further properties *)

(** ** The shape of what the parser returns *)

Lemma string_length_app_lt s op t :
  (0 < String.length op)%nat ->
  (String.length s < String.length (s +:+ op +:+ t))%nat.
Proof. intros H. rewrite !string_length_app. lia. Qed.

Lemma match_alternation_Some alts s group rest :
  Py.match_alternation alts s = Some (group, rest) ->
  s = group +:+ rest
  /\ exists earlier later,
       alts = earlier ++ group :: later
       /\ Forall (fun a => Py.strip_prefix a s = None) earlier.
Proof.
  induction alts as [|a alts IH]; cbn [Py.match_alternation]; [discriminate|].
  destruct (Py.strip_prefix a s) as [r|] eqn:E.
  - intros [= <- <-]. split; [by apply strip_prefix_Some|].
    exists [], alts. split; [reflexivity | constructor].
  - intros H. destruct (IH H) as (Hs & earlier & later & -> & Hall).
    split; [exact Hs|]. exists (a :: earlier), later.
    split; [reflexivity | by constructor].
Qed.

Lemma match_alternation_None alts s :
  Py.match_alternation alts s = None ->
  forall a rest, a ∈ alts -> s <> a +:+ rest.
Proof.
  induction alts as [|a alts IH]; cbn [Py.match_alternation].
  - intros _ a rest Ha. by apply elem_of_nil in Ha.
  - destruct (Py.strip_prefix a s) as [r|] eqn:E; [discriminate|].
    intros H b rest Hb Hs. apply elem_of_cons in Hb as [->|Hb].
    + apply strip_prefix_Some in Hs. congruence.
    + exact (IH H b rest Hb Hs).
Qed.

(** [re.search] returns the leftmost match. *)
Lemma search_alternation_spaces_Some alts s before group after :
  Py.search_alternation_spaces alts s = Some (before, group, after) ->
  exists rest,
    s = before +:+ group +:+ rest
    /\ after = Py.skip_spaces rest
    /\ Py.match_alternation alts (group +:+ rest) = Some (group, rest)
    /\ forall a pre post,
         a ∈ alts -> s = pre +:+ a +:+ post ->
         (String.length before <= String.length pre)%nat.
Proof.
  revert before group after.
  induction s as [|c s IH]; intros before group after;
    rewrite search_alternation_spaces_unfold;
    destruct (Py.match_alternation alts _) as [[g r]|] eqn:E.
  - intros [= <- <- <-]. exists r.
    destruct (match_alternation_Some _ _ _ _ E) as [Hs _].
    rewrite string_app_nil_l, <- Hs. repeat split; auto.
    intros; simpl; lia.
  - discriminate.
  - intros [= <- <- <-]. exists r.
    destruct (match_alternation_Some _ _ _ _ E) as [Hs _].
    rewrite string_app_nil_l, <- Hs. repeat split; auto.
    intros; simpl; lia.
  - destruct (Py.search_alternation_spaces alts s) as [[[b g] a]|] eqn:Es;
      [|discriminate].
    intros [= <- <- <-].
    destruct (IH b g a eq_refl) as (rest & Hs & Ha & Hm & Hleft).
    exists rest. rewrite string_app_cons, <- Hs. repeat split; auto.
    intros op pre post Hop Hpre. destruct pre as [|c' pre].
    + rewrite string_app_nil_l in Hpre.
      exfalso. exact (match_alternation_None _ _ E op post Hop Hpre).
    + rewrite string_app_cons in Hpre. injection Hpre as -> Hpre.
      simpl. specialize (Hleft op pre post Hop Hpre). lia.
Qed.

Lemma search_alternation_spaces_None alts s :
  Py.search_alternation_spaces alts s = None ->
  forall a pre post, a ∈ alts -> s <> pre +:+ a +:+ post.
Proof.
  induction s as [|c s IH]; rewrite search_alternation_spaces_unfold;
    destruct (Py.match_alternation alts _) as [[g r]|] eqn:E; try discriminate.
  - intros _ a pre post Ha Hs. destruct pre as [|c' pre].
    + rewrite string_app_nil_l in Hs. exact (match_alternation_None _ _ E a post Ha Hs).
    + rewrite string_app_cons in Hs. discriminate.
  - destruct (Py.search_alternation_spaces alts s) as [[[b g] a]|] eqn:Es;
      [discriminate|].
    intros _ a pre post Ha Hs. destruct pre as [|c' pre].
    + rewrite string_app_nil_l in Hs. exact (match_alternation_None _ _ E a post Ha Hs).
    + rewrite string_app_cons in Hs. injection Hs as -> Hs.
      exact (IH eq_refl a pre post Ha Hs).
Qed.

Lemma split_once_char c s before after :
  Py.split_once (String c "") s = Some (before, after) ->
  all_chars (fun a => negb (Ascii.eqb a c)) before = true
  /\ s = before +:+ String c after.
Proof.
  revert before. induction s as [|a s IH]; intros before;
    rewrite split_once_unfold; cbn [Py.strip_prefix]; [discriminate|].
  destruct (Ascii.eqb_spec c a) as [->|Hca].
  - destruct s; intros [= <- <-]; auto.
  - destruct (Py.split_once _ s) as [[b r]|]; [|discriminate].
    intros [= <- <-]. destruct (IH b eq_refl) as [Hb ->].
    split; [|reflexivity]. cbn [all_chars]. rewrite Hb, andb_true_r.
    apply negb_true_iff. by apply Ascii.eqb_neq.
Qed.

Lemma split_once_char_None c s :
  Py.split_once (String c "") s = None ->
  all_chars (fun a => negb (Ascii.eqb a c)) s = true.
Proof.
  intros H. apply contains_char. unfold Py.contains. by rewrite H.
Qed.

(** [requirement.split(';')]: one piece when there is no [;], else the
    text before the first [;], the text up to the next one, and more. *)
Lemma split_semicolon_shape requirement :
  (no_semicolon requirement = true
   /\ Py.split ";" requirement = [requirement])
  \/ (exists first marker rest tail,
        Py.split ";" requirement = first :: marker :: tail
        /\ no_semicolon first = true
        /\ no_semicolon marker = true
        /\ requirement = first +:+ ";" +:+ marker +:+ rest
        /\ (rest = "" \/ exists r, rest = ";" +:+ r)).
Proof.
  unfold Py.split.
  destruct (Py.split_once ";" requirement) as [[first after]|] eqn:E.
  - right. destruct (split_once_char _ _ _ _ E) as [Hfirst Hreq].
    assert (Hlen : String.length requirement
                   = S (String.length first + String.length after)).
    { rewrite Hreq, string_length_app. simpl. lia. }
    rewrite Hlen. cbn [Py.split_max]. rewrite E.
    destruct (Py.split_once ";" after) as [[marker more]|] eqn:E'.
    + destruct (split_once_char _ _ _ _ E') as [Hmarker Hafter].
      assert (Hlen' : exists n, (String.length first + String.length after)%nat
                                = S n).
      { rewrite Hafter, string_length_app. simpl.
        exists (String.length first + (String.length marker + String.length more))%nat.
        lia. }
      destruct Hlen' as [n ->]. cbn [Py.split_max]. rewrite E'.
      exists first, marker, (String ";" more), (Py.split_max n ";" more).
      repeat split; auto.
      * rewrite Hreq, Hafter. reflexivity.
      * right. exists more. reflexivity.
    + exists first, after, "", [].
      assert (Py.split_max (String.length first + String.length after) ";" after
              = [after]) as ->.
      { destruct (_ + _)%nat; cbn [Py.split_max]; [reflexivity|].
        by rewrite E'. }
      repeat split; auto.
      * by apply split_once_char_None.
      * rewrite Hreq, string_app_nil_r. reflexivity.
  - left. pose proof (split_once_char_None _ _ E) as H. split; [exact H|].
    destruct (String.length requirement); cbn [Py.split_max]; [reflexivity|].
    by rewrite E.
Qed.

(** [re.split] on the version descriptors: the whole text when none
    occurs, else the text before the leftmost one and that descriptor. *)
Lemma re_split_shape first :
  (Py.re_split version_descriptors first = [first]
   /\ forall a pre post,
        a ∈ version_descriptors -> first <> pre +:+ a +:+ post)
  \/ (exists name group rest tail,
        Py.re_split version_descriptors first = name :: group :: tail
        /\ first = name +:+ group +:+ rest
        /\ Py.match_alternation version_descriptors (group +:+ rest)
           = Some (group, rest)
        /\ forall a pre post,
             a ∈ version_descriptors -> first = pre +:+ a +:+ post ->
             (String.length name <= String.length pre)%nat).
Proof.
  unfold Py.re_split.
  destruct (Py.search_alternation_spaces version_descriptors first)
    as [[[name group] after]|] eqn:E.
  - right.
    destruct (search_alternation_spaces_Some _ _ _ _ _ E)
      as (rest & Hs & _ & Hm & Hleft).
    destruct first as [|c first]; [discriminate E|].
    cbn [String.length Py.re_split_max]. rewrite E.
    exists name, group, rest. eauto 10.
  - left. split; [|by apply search_alternation_spaces_None].
    destruct (String.length first); cbn [Py.re_split_max]; [reflexivity|].
    by rewrite E.
Qed.

(** The alternation prefers the longer of two descriptors that both
    match ([>=] to [>], [<=] to [<]). *)
Lemma match_alternation_longest group rest :
  group ∈ version_descriptors ->
  Py.match_alternation version_descriptors (group +:+ rest) = Some (group, rest) ->
  forall a r,
    a ∈ version_descriptors -> group +:+ rest = a +:+ r ->
    (String.length a <= String.length group)%nat.
Proof.
  intros Hg Hm a r Ha Heq. unfold version_descriptors in Hg, Ha.
  repeat (apply elem_of_cons in Hg as [->|Hg]);
    [| | | | | | | by apply elem_of_nil in Hg];
    repeat (apply elem_of_cons in Ha as [->|Ha]);
    try (by apply elem_of_nil in Ha);
    try (simpl; lia);
    cbv beta iota fix delta [String.append] in Heq;
    try discriminate Heq;
    injection Heq as ->;
    cbv in Hm; discriminate Hm.
Qed.

Lemma match_alternation_elem_of alts s group rest :
  Py.match_alternation alts s = Some (group, rest) -> group ∈ alts.
Proof.
  intros H. destruct (match_alternation_Some _ _ _ _ H)
    as (_ & earlier & later & -> & _).
  apply elem_of_app. right. apply elem_of_cons. by left.
Qed.

(** X3: what [_pip_requirement_split] returns on any string.  With
    [first] the text before the first [;]: the marker is the text between
    the first [;] and the next one (what follows a second [;] is
    dropped), and there is none when the requirement has no [;]; the
    version field is the descriptor that occurs leftmost in [first], the
    longer one where two start there, and the name is the text before it;
    without a descriptor in [first] the name is [first] and there is no
    version field. *)
Theorem pip_requirement_split_shape requirement :
  exists name versions marker first,
    _pip_requirement_split requirement = Ok (name, versions, marker)
    /\ no_semicolon first = true
    /\ match marker with
       | None => requirement = first
       | Some m =>
           no_semicolon m = true
           /\ exists rest,
                requirement = first +:+ ";" +:+ m +:+ rest
                /\ (rest = "" \/ exists r, rest = ";" +:+ r)
       end
    /\ match versions with
       | None =>
           first = name
           /\ forall a, a ∈ version_descriptors -> ~ occurs_in a first
       | Some v =>
           v ∈ version_descriptors
           /\ exists rest,
                first = name +:+ v +:+ rest
                /\ (forall a pre post,
                       a ∈ version_descriptors ->
                       first = pre +:+ a +:+ post ->
                       (String.length name <= String.length pre)%nat)
                /\ (forall a r,
                       a ∈ version_descriptors ->
                       v +:+ rest = a +:+ r ->
                       (String.length a <= String.length v)%nat)
       end.
Proof.
  unfold _pip_requirement_split.
  assert (Hparts : exists first marker tail,
             Py.split ";" requirement = first :: tail
             /\ (if (1 <? length (first :: tail))%nat
                 then Some <$> Py.index (first :: tail) 1
                 else Ok None) = Ok marker
             /\ no_semicolon first = true
             /\ match marker with
                | None => requirement = first
                | Some m =>
                    no_semicolon m = true
                    /\ exists rest,
                         requirement = first +:+ ";" +:+ m +:+ rest
                         /\ (rest = "" \/ exists r, rest = ";" +:+ r)
                end).
  { destruct (split_semicolon_shape requirement)
      as [[Hno ->]|(first & m & rest & tail & -> & Hf & Hm & Hreq & Hrest)].
    - exists requirement, None, []. auto.
    - exists first, (Some m), (m :: tail). repeat split; eauto. }
  destruct Hparts as (first & marker & tail & -> & Hmarker & Hfirst & Hshape).
  cbn [Py.index lookup list_lookup mbind result_bind]. rewrite Hmarker.
  destruct (re_split_shape first)
    as [[-> Hnone]|(name & v & rest & tail' & -> & Hf & Hm & Hleft)];
    cbn [Py.index lookup list_lookup mbind result_bind length Nat.ltb Nat.leb
           fmap result_fmap].
  - exists first, None, marker, first. repeat split; auto.
    intros a Ha (pre & post & Hocc). exact (Hnone a pre post Ha Hocc).
  - exists name, (Some v), marker, first.
    pose proof (match_alternation_elem_of _ _ _ _ Hm) as Hv.
    repeat split; auto. exists rest. repeat split; auto.
    by apply match_alternation_longest.
Qed.

(** ** Lower-casing commutes with the parser *)

Lemma lower_char_caseless x c :
  caseless x = true ->
  Ascii.eqb x (Py.lower_char c) = Ascii.eqb x c.
Proof.
  intros Hx. unfold Py.lower_char.
  destruct (Py.is_upper c) eqn:Hc; [|reflexivity].
  destruct (Ascii.eqb_spec x c) as [->|_].
  - unfold caseless in Hx. rewrite Hc in Hx. discriminate.
  - apply Ascii.eqb_neq. intros ->. revert Hx Hc. clear.
    destruct c as [[] [] [] [] [] [] [] []]; vm_compute; congruence.
Qed.

Lemma lower_caseless s : all_chars caseless s = true -> Py.lower s = s.
Proof.
  intros H. apply lower_lowered. revert H. apply all_chars_impl.
  intros c. unfold caseless. rewrite andb_true_iff. tauto.
Qed.

Lemma lower_length s : String.length (Py.lower s) = String.length s.
Proof. induction s as [|c s IH]; [reflexivity|]. cbn. by rewrite IH. Qed.

Lemma strip_prefix_lower p s :
  all_chars caseless p = true ->
  Py.strip_prefix p (Py.lower s) = Py.lower <$> Py.strip_prefix p s.
Proof.
  revert s. induction p as [|a p IH]; intros s Hp.
  - destruct s; reflexivity.
  - cbn [all_chars] in Hp. apply andb_true_iff in Hp as [Ha Hp].
    destruct s as [|b s]; [reflexivity|].
    cbn [Py.lower Py.strip_prefix]. rewrite (lower_char_caseless _ _ Ha).
    destruct (Ascii.eqb a b); [by apply IH | reflexivity].
Qed.

Lemma split_once_lower sep s :
  all_chars caseless sep = true ->
  Py.split_once sep (Py.lower s)
  = (fun '(before, after) => (Py.lower before, Py.lower after))
      <$> Py.split_once sep s.
Proof.
  intros Hsep. induction s as [|c s IH];
    rewrite (split_once_unfold sep (Py.lower _)), split_once_unfold,
      (strip_prefix_lower _ _ Hsep);
    destruct (Py.strip_prefix sep _) as [rest|]; try reflexivity.
  cbn [fmap option_fmap option_map Py.lower]. rewrite IH.
  destruct (Py.split_once sep s) as [[b a]|]; reflexivity.
Qed.

Lemma split_max_lower n sep s :
  all_chars caseless sep = true ->
  Py.split_max n sep (Py.lower s) = Py.lower <$> Py.split_max n sep s.
Proof.
  intros Hsep. revert s. induction n as [|n IH]; intros s;
    cbn [Py.split_max]; [reflexivity|].
  rewrite (split_once_lower _ _ Hsep).
  destruct (Py.split_once sep s) as [[b a]|]; cbn; [|reflexivity].
  by rewrite IH.
Qed.

Lemma split_lower sep s :
  all_chars caseless sep = true ->
  Py.split sep (Py.lower s) = Py.lower <$> Py.split sep s.
Proof.
  intros Hsep. unfold Py.split. rewrite lower_length.
  by apply split_max_lower.
Qed.

Lemma is_space_lower c : Py.is_space (Py.lower_char c) = Py.is_space c.
Proof. destruct c as [[] [] [] [] [] [] [] []]; reflexivity. Qed.

Lemma skip_spaces_lower s :
  Py.skip_spaces (Py.lower s) = Py.lower (Py.skip_spaces s).
Proof.
  induction s as [|c s IH]; [reflexivity|].
  cbn [Py.lower Py.skip_spaces]. rewrite is_space_lower.
  destruct (Py.is_space c); [exact IH | reflexivity].
Qed.

Lemma match_alternation_lower alts s :
  Forall (fun a => all_chars caseless a = true) alts ->
  Py.match_alternation alts (Py.lower s)
  = (fun '(group, rest) => (group, Py.lower rest))
      <$> Py.match_alternation alts s.
Proof.
  induction 1 as [|a alts Ha _ IH]; cbn [Py.match_alternation]; [reflexivity|].
  rewrite (strip_prefix_lower _ _ Ha).
  destruct (Py.strip_prefix a s); [reflexivity | exact IH].
Qed.

Lemma search_alternation_spaces_lower alts s :
  Forall (fun a => all_chars caseless a = true) alts ->
  Py.search_alternation_spaces alts (Py.lower s)
  = (fun '(before, group, after) => (Py.lower before, group, Py.lower after))
      <$> Py.search_alternation_spaces alts s.
Proof.
  intros Halts. induction s as [|c s IH];
    rewrite (search_alternation_spaces_unfold alts (Py.lower _)),
      search_alternation_spaces_unfold, (match_alternation_lower _ _ Halts);
    destruct (Py.match_alternation alts _) as [[g r]|];
    cbn [fmap option_fmap option_map]; rewrite ?skip_spaces_lower;
    try reflexivity.
  cbn [Py.lower]. rewrite IH.
  destruct (Py.search_alternation_spaces alts s) as [[[b g] a]|]; reflexivity.
Qed.

Lemma re_split_max_lower n alts s :
  Forall (fun a => all_chars caseless a = true) alts ->
  Py.re_split_max n alts (Py.lower s) = Py.lower <$> Py.re_split_max n alts s.
Proof.
  intros Halts. revert s. induction n as [|n IH]; intros s;
    cbn [Py.re_split_max]; [reflexivity|].
  rewrite (search_alternation_spaces_lower _ _ Halts).
  destruct (Py.search_alternation_spaces alts s) as [[[b g] a]|] eqn:E;
    cbn; [|reflexivity].
  rewrite IH. f_equal. f_equal. symmetry. apply lower_caseless.
  destruct (search_alternation_spaces_Some _ _ _ _ _ E) as (r & _ & _ & Hm & _).
  apply match_alternation_elem_of in Hm.
  rewrite Forall_forall in Halts. auto.
Qed.

Lemma version_descriptors_caseless :
  Forall (fun a => all_chars caseless a = true) version_descriptors.
Proof. repeat constructor. Qed.

Lemma index_fmap {A B} (f : A -> B) (l : list A) i :
  Py.index (f <$> l) i = f <$> Py.index l i.
Proof.
  unfold Py.index. rewrite list_lookup_fmap.
  destruct (l !! i); reflexivity.
Qed.

Lemma re_split_lower s :
  Py.re_split version_descriptors (Py.lower s)
  = Py.lower <$> Py.re_split version_descriptors s.
Proof.
  unfold Py.re_split. rewrite lower_length.
  apply re_split_max_lower, version_descriptors_caseless.
Qed.

Lemma pip_requirement_split_lower_fields requirement :
  _pip_requirement_split (Py.lower requirement)
  = lower_fields <$> _pip_requirement_split requirement.
Proof.
  unfold _pip_requirement_split.
  rewrite split_lower by reflexivity.
  destruct (Py.split ";" requirement) as [|first tail]; [reflexivity|].
  cbn [fmap list_fmap Py.index lookup list_lookup mbind result_bind].
  rewrite re_split_lower.
  destruct (re_split_shape first)
    as [[-> _]|(name & v & rest & tail' & -> & _ & Hm & _)].
  - destruct tail; reflexivity.
  - apply match_alternation_elem_of in Hm.
    assert (Py.lower v = v) as Hv.
    { apply lower_caseless.
      pose proof version_descriptors_caseless as H.
      rewrite Forall_forall in H. auto. }
    destruct tail; cbn; rewrite Hv; reflexivity.
Qed.

Lemma parsed_name_lower requirement :
  parsed_name (Py.lower requirement) = Py.lower (parsed_name requirement).
Proof.
  unfold parsed_name. rewrite pip_requirement_split_lower_fields.
  destruct (pip_requirement_split_returns requirement)
    as (n & v & m & -> & _).
  reflexivity.
Qed.

Lemma has_version_spec_lower requirement :
  has_version_spec (Py.lower requirement) = has_version_spec requirement.
Proof.
  unfold has_version_spec. rewrite pip_requirement_split_lower_fields.
  destruct (pip_requirement_split_returns requirement)
    as (n & v & m & -> & _).
  reflexivity.
Qed.

(** X4: parsing the lower-cased requirement gives the lower-cased name
    and marker and the same version field; so the parsed name commutes
    with lower-casing, and whether a requirement has a version spec does
    not depend on the case of its letters. *)
Theorem pip_requirement_split_case_folding requirement :
  _pip_requirement_split (Py.lower requirement)
  = lower_fields <$> _pip_requirement_split requirement
  /\ parsed_name (Py.lower requirement) = Py.lower (parsed_name requirement)
  /\ has_version_spec (Py.lower requirement) = has_version_spec requirement.
Proof.
  split; [|split].
  - apply pip_requirement_split_lower_fields.
  - apply parsed_name_lower.
  - apply has_version_spec_lower.
Qed.

(** ** Parsed names are plain *)

Lemma parsed_name_plain requirement name versions marker :
  _pip_requirement_split requirement = Ok (name, versions, marker) ->
  plain name.
Proof.
  unfold _pip_requirement_split.
  assert (Hfirst : exists first tail,
             Py.split ";" requirement = first :: tail
             /\ no_semicolon first = true).
  { destruct (split_semicolon_shape requirement)
      as [[Hno ->]|(first & m & rest & tail & -> & Hf & _)]; eauto. }
  destruct Hfirst as (first & tail & -> & Hfirst).
  cbn [Py.index lookup list_lookup mbind result_bind].
  destruct (index_optional (first :: tail)) as [marker' ->].
  destruct (re_split_shape first)
    as [[-> Hnone]|(name' & v & rest & tail' & -> & Hf & Hm & Hleft)];
    cbn [Py.index lookup list_lookup mbind result_bind length Nat.ltb Nat.leb
           fmap result_fmap];
    intros [= <- <- <-].
  - split; [exact Hfirst|]. intros a Ha (pre & post & Hocc).
    exact (Hnone a pre post Ha Hocc).
  - split.
    + rewrite Hf in Hfirst. unfold no_semicolon in *.
      rewrite all_chars_app in Hfirst. by apply andb_true_iff in Hfirst as [? _].
    + intros a Ha (pre & post & Hocc).
      assert (Hlen : (String.length name' <= String.length pre)%nat).
      { apply (Hleft a pre (post +:+ v +:+ rest) Ha).
        rewrite Hf, Hocc at 1. by rewrite !string_app_assoc. }
      rewrite Hocc, !string_length_app in Hlen.
      pose proof (descriptor_length _ Ha). lia.
Qed.

Lemma search_alternation_spaces_absent alts s :
  (forall a, a ∈ alts -> ~ exists pre post, s = pre +:+ a +:+ post) ->
  Py.search_alternation_spaces alts s = None.
Proof.
  intros Hno.
  destruct (Py.search_alternation_spaces alts s) as [[[b g] a]|] eqn:E;
    [|reflexivity].
  destruct (search_alternation_spaces_Some _ _ _ _ _ E) as (r & Hs & _ & Hm & _).
  exfalso. apply (Hno g); [by eapply match_alternation_elem_of | eauto].
Qed.

(** A plain string is all name: no version field and no marker. *)
Lemma pip_requirement_split_plain s :
  plain s -> _pip_requirement_split s = Ok (s, None, None).
Proof.
  intros [Hsemi Hdesc]. unfold _pip_requirement_split.
  rewrite (split_absent ";"%char _ Hsemi).
  cbn [Py.index lookup list_lookup mbind result_bind length Nat.ltb Nat.leb].
  assert (Py.re_split version_descriptors s = [s]) as ->.
  { unfold Py.re_split. destruct (String.length s); cbn [Py.re_split_max];
      [reflexivity|].
    by rewrite (search_alternation_spaces_absent _ _ Hdesc). }
  reflexivity.
Qed.

Lemma lower_plain s : plain s -> plain (Py.lower s).
Proof.
  intros Hs. pose proof (pip_requirement_split_plain _ Hs) as E.
  pose proof (pip_requirement_split_lower_fields s) as El. rewrite E in El.
  exact (parsed_name_plain _ _ _ _ El).
Qed.

Lemma lower_nonempty s : s <> "" -> Py.lower s <> "".
Proof. destruct s; [congruence | discriminate]. Qed.

Lemma startswith_lower s p :
  all_chars caseless p = true ->
  Py.startswith (Py.lower s) p = Py.startswith s p.
Proof.
  intros Hp. unfold Py.startswith. rewrite (strip_prefix_lower _ _ Hp).
  destruct (Py.strip_prefix p s); reflexivity.
Qed.

Lemma lower_idempotent s : Py.lower (Py.lower s) = Py.lower s.
Proof. apply lower_lowered, lower_is_lowered. Qed.

(** ** [pip_requirement_names]: what its results look like *)

Lemma pip_requirement_names_cases requirements r :
  pip_requirement_names requirements r ->
  exists out,
    r = Ok out
    /\ Sorted String.le out
    /\ NoDup out
    /\ forall x, x ∈ out <-> kept_name requirements x.
Proof.
  destruct (named_requirements_loop_spec [] requirements) as (named & E & Hn).
  intros [named' l E' Hl | e E']; [|congruence].
  assert (named' = named) as -> by congruence.
  exists (Py.sorted l). split; [reflexivity|].
  split; [apply sorted_Sorted|]. split.
  - rewrite sorted_Permutation. by eapply list_of_set_NoDup.
  - intros x. rewrite sorted_Permutation, (list_of_set_elem_of _ _ _ Hl).
    rewrite elem_of_list_to_set, Hn. split; [|auto].
    intros [H|H]; [by apply elem_of_nil in H | exact H].
Qed.

Lemma sorted_nodup_unique (l k : list string) :
  Sorted String.le l -> Sorted String.le k -> NoDup l -> NoDup k ->
  (forall x, x ∈ l <-> x ∈ k) -> l = k.
Proof.
  intros Hl Hk Hnl Hnk Helem.
  apply (Sorted_unique String.le); auto. by apply NoDup_Permutation.
Qed.

(** A kept name, parsed again, is kept as it is. *)
Lemma kept_name_reparse requirements x :
  kept_name requirements x ->
  _pip_requirement_split x = Ok (x, None, None)
  /\ x <> "" /\ Py.startswith x "#" = false /\ Py.lower x = x.
Proof.
  intros (r & n & v & m & _ & E & Hne & Hst & ->).
  split; [|split; [|split]].
  - apply pip_requirement_split_plain, lower_plain.
    by eapply parsed_name_plain.
  - by apply lower_nonempty.
  - by rewrite startswith_lower.
  - apply lower_idempotent.
Qed.

(** Whether a name is kept depends on the lower-cased requirements only. *)
Lemma kept_name_lower requirements x :
  kept_name (Py.lower <$> requirements) x <-> kept_name requirements x.
Proof.
  split.
  - intros (r & n & v & m & Hr & E & Hne & Hst & ->).
    apply list_elem_of_fmap in Hr as (r0 & -> & Hr0).
    destruct (pip_requirement_split_returns r0) as (n0 & v0 & m0 & E0 & _).
    pose proof (pip_requirement_split_lower_fields r0) as El.
    rewrite E0, E in El. injection El as -> _ _.
    exists r0, n0, v0, m0. repeat split; auto.
    + intros ->. by apply Hne.
    + by rewrite startswith_lower in Hst.
    + apply lower_idempotent.
  - intros (r & n & v & m & Hr & E & Hne & Hst & ->).
    pose proof (pip_requirement_split_lower_fields r) as El. rewrite E in El.
    exists (Py.lower r), (Py.lower n), v, (Py.lower <$> m).
    repeat split; auto.
    + by apply list_elem_of_fmap_2.
    + by apply lower_nonempty.
    + by rewrite startswith_lower.
    + symmetry. apply lower_idempotent.
Qed.

Lemma kept_name_same_elements requirements1 requirements2 x :
  (forall r, r ∈ requirements1 <-> r ∈ requirements2) ->
  kept_name requirements1 x -> kept_name requirements2 x.
Proof.
  intros Hsame (r & n & v & m & Hr & H). exists r, n, v, m.
  split; [by apply Hsame | exact H].
Qed.

(** X5: the result of [pip_requirement_names] depends only on the set of
    lower-cased requirements: the order of the input, repeated entries,
    the case of the letters and the order in which Python enumerates the
    set make no difference. *)
Theorem pip_requirement_names_set_of_lowered requirements1 requirements2 r1 r2 :
  (forall x, x ∈ Py.lower <$> requirements1 <-> x ∈ Py.lower <$> requirements2) ->
  pip_requirement_names requirements1 r1 ->
  pip_requirement_names requirements2 r2 ->
  r1 = r2.
Proof.
  intros Hsame H1 H2.
  destruct (pip_requirement_names_cases _ _ H1) as (o1 & -> & Hs1 & Hn1 & He1).
  destruct (pip_requirement_names_cases _ _ H2) as (o2 & -> & Hs2 & Hn2 & He2).
  f_equal. apply sorted_nodup_unique; auto.
  intros x. rewrite He1, He2, <- (kept_name_lower requirements1),
    <- (kept_name_lower requirements2).
  split; apply kept_name_same_elements; [|symmetry]; apply Hsame.
Qed.

(** X6: [pip_requirement_names] is idempotent: applied to one of its own
    results it returns that result. *)
Theorem pip_requirement_names_idempotent requirements out r :
  pip_requirement_names requirements (Ok out) ->
  pip_requirement_names out r ->
  r = Ok out.
Proof.
  intros H1 H2.
  destruct (pip_requirement_names_cases _ _ H1) as (o1 & [= <-] & Hs1 & Hn1 & He1).
  destruct (pip_requirement_names_cases _ _ H2) as (o2 & -> & Hs2 & Hn2 & He2).
  f_equal. apply sorted_nodup_unique; auto.
  intros x. rewrite He2. split.
  - intros (y & n & v & m & Hy & E & _ & _ & ->).
    destruct (kept_name_reparse _ _ (proj1 (He1 y) Hy)) as (E' & _ & _ & Hl).
    assert (n = y) as -> by congruence. by rewrite Hl.
  - intros Hx.
    destruct (kept_name_reparse _ _ (proj1 (He1 x) Hx)) as (E & Hne & Hst & Hl).
    exists x, x, None, None. auto.
Qed.

(** X7: every name [pip_requirement_names] returns is non-empty, lower
    case, does not start with [#], and holds no [;] and no version
    descriptor: parsed as a requirement it is a bare name. *)
Theorem pip_requirement_names_bare requirements out :
  pip_requirement_names requirements (Ok out) ->
  Forall (fun x => x <> ""
                   /\ is_lowered x = true
                   /\ Py.startswith x "#" = false
                   /\ no_semicolon x = true
                   /\ (forall a, a ∈ version_descriptors -> ~ occurs_in a x)
                   /\ _pip_requirement_split x = Ok (x, None, None))
    out.
Proof.
  intros H.
  destruct (pip_requirement_names_cases _ _ H) as (o & [= <-] & _ & _ & He).
  apply Forall_forall. intros x Hx. apply He in Hx.
  destruct (kept_name_reparse _ _ Hx) as (E & Hne & Hst & Hl).
  destruct (parsed_name_plain _ _ _ _ E) as [Hsemi Hdesc].
  repeat split; auto. rewrite <- Hl. apply lower_is_lowered.
Qed.

(** ** [pip_constraint_update]: where the entries of the result come from *)

Lemma same_name_key entry override :
  same_name entry override = true <-> name_key entry = name_key override.
Proof. unfold same_name, name_key. apply String.eqb_eq. Qed.

Lemma same_name_key_false entry override :
  same_name entry override = false <-> name_key entry <> name_key override.
Proof. unfold same_name, name_key. apply String.eqb_neq. Qed.

Lemma elem_of_replace_or_append x override base :
  x ∈ replace_or_append override base -> x ∈ base \/ x = override.
Proof.
  induction base as [|entry base IH]; cbn [replace_or_append].
  - intros H%list_elem_of_singleton. auto.
  - destruct (same_name entry override).
    + intros [->|H]%elem_of_cons; [auto|]. left. apply elem_of_cons. auto.
    + intros [->|H]%elem_of_cons; [left; apply elem_of_cons; auto|].
      destruct (IH H) as [?|?]; [left; apply elem_of_cons|]; auto.
Qed.

Lemma replace_or_append_override override base :
  override ∈ replace_or_append override base.
Proof.
  induction base as [|entry base IH]; cbn [replace_or_append].
  - by apply list_elem_of_singleton.
  - destruct (same_name entry override); apply elem_of_cons; auto.
Qed.

Lemma replace_or_append_keeps b override base :
  b ∈ base -> same_name b override = false ->
  b ∈ replace_or_append override base.
Proof.
  intros Hb Hne. induction base as [|entry base IH];
    [by apply elem_of_nil in Hb|].
  cbn [replace_or_append]. apply elem_of_cons in Hb as [->|Hb].
  - rewrite Hne. apply elem_of_cons. auto.
  - destruct (same_name entry override); apply elem_of_cons; auto.
Qed.

Lemma replace_or_append_key b override base :
  b ∈ base ->
  exists y, y ∈ replace_or_append override base /\ name_key y = name_key b.
Proof.
  intros Hb. destruct (same_name b override) eqn:E.
  - exists override. split; [apply replace_or_append_override|].
    symmetry. by apply same_name_key.
  - exists b. split; [by apply replace_or_append_keeps | reflexivity].
Qed.

Lemma elem_of_merge_override x base override :
  x ∈ merge_override base override ->
  x ∈ base \/ (x = override /\ has_version_spec override = true).
Proof.
  unfold merge_override. destruct (has_version_spec override); [|auto].
  intros [?|?]%elem_of_replace_or_append; auto.
Qed.

Lemma elem_of_foldl_merge_override x base overrides :
  x ∈ foldl merge_override base overrides ->
  x ∈ base \/ (x ∈ overrides /\ has_version_spec x = true).
Proof.
  revert base. induction overrides as [|o overrides IH]; intros base;
    cbn [foldl]; [auto|].
  intros [H|[H Hv]]%IH.
  - apply elem_of_merge_override in H as [?|[-> ?]]; [auto|].
    right. split; [apply elem_of_cons|]; auto.
  - right. split; [apply elem_of_cons|]; auto.
Qed.

Lemma foldl_merge_override_keeps b base overrides :
  b ∈ base ->
  (forall o, o ∈ overrides -> has_version_spec o = true ->
             name_key o <> name_key b) ->
  b ∈ foldl merge_override base overrides.
Proof.
  revert base. induction overrides as [|o overrides IH]; intros base Hb Hne;
    cbn [foldl]; [exact Hb|].
  apply IH.
  - unfold merge_override. destruct (has_version_spec o) eqn:Hv; [|exact Hb].
    apply replace_or_append_keeps; [exact Hb|].
    apply same_name_key_false. intros E. apply (Hne o); auto.
    apply elem_of_cons. auto.
  - intros o' Ho'. apply Hne, elem_of_cons. auto.
Qed.

Lemma foldl_merge_override_key b base overrides :
  b ∈ base ->
  exists y, y ∈ foldl merge_override base overrides
            /\ name_key y = name_key b.
Proof.
  revert b base. induction overrides as [|o overrides IH]; intros b base Hb;
    cbn [foldl]; [eauto|].
  assert (Hy : exists y, y ∈ merge_override base o /\ name_key y = name_key b).
  { unfold merge_override. destruct (has_version_spec o); [|eauto].
    by apply replace_or_append_key. }
  destruct Hy as (y & Hy & Ek).
  destruct (IH y _ Hy) as (z & Hz & Ez). exists z. split; congruence.
Qed.

Lemma foldl_merge_override_override_key o base overrides :
  o ∈ overrides -> has_version_spec o = true ->
  exists y, y ∈ foldl merge_override base overrides
            /\ name_key y = name_key o.
Proof.
  revert base. induction overrides as [|o' overrides IH]; intros base Ho Hv;
    [by apply elem_of_nil in Ho|].
  cbn [foldl]. apply elem_of_cons in Ho as [<-|Ho]; [|by apply IH].
  apply foldl_merge_override_key.
  unfold merge_override. rewrite Hv. apply replace_or_append_override.
Qed.

Lemma foldl_merge_override_ignored base overrides :
  Forall (fun o => has_version_spec o = false) overrides ->
  foldl merge_override base overrides = base.
Proof.
  intros H. revert base. induction H as [|o overrides Ho _ IH]; intros base;
    cbn [foldl]; [reflexivity|].
  unfold merge_override at 2. rewrite Ho. apply IH.
Qed.

(** The results of the filter, over the lower-cased inputs. *)
Lemma pip_constraint_update_lowered list_one list_two r :
  pip_constraint_update list_one list_two r ->
  exists _list_one _list_two,
    r = Ok (Py.sorted (foldl merge_override _list_one _list_two))
    /\ NoDup _list_one
    /\ (forall x, x ∈ _list_one <-> x ∈ Py.lower <$> list_one)
    /\ (forall x, x ∈ _list_two <-> x ∈ Py.lower <$> list_two)
    /\ Forall (fun x => is_lowered x = true)
         (foldl merge_override _list_one _list_two).
Proof.
  intros Hr.
  destruct (pip_constraint_update_cases _ _ _ Hr)
    as (l1 & l2 & H1 & H2 & -> & Hl).
  exists l1, l2. split; [reflexivity|].
  split; [by eapply list_of_set_NoDup|].
  split; [|split; [|exact Hl]]; intros x.
  - by rewrite (list_of_set_elem_of _ _ _ H1), elem_of_list_to_set.
  - by rewrite (list_of_set_elem_of _ _ _ H2), elem_of_list_to_set.
Qed.

(** X8: [pip_constraint_update] invents nothing: every entry of a result
    is a lower-cased entry of [list_one], or a lower-cased entry of
    [list_two] that has a version spec. *)
Theorem pip_constraint_update_sources list_one list_two r :
  pip_constraint_update list_one list_two r ->
  exists out,
    r = Ok out
    /\ Forall (fun y => y ∈ Py.lower <$> list_one
                        \/ (y ∈ Py.lower <$> list_two
                            /\ has_version_spec y = true))
         out.
Proof.
  intros Hr.
  destruct (pip_constraint_update_lowered _ _ _ Hr)
    as (l1 & l2 & -> & _ & H1 & H2 & _).
  eexists. split; [reflexivity|]. apply Forall_forall. intros y Hy.
  rewrite sorted_Permutation in Hy.
  apply elem_of_foldl_merge_override in Hy as [Hy|[Hy Hv]].
  - left. by apply H1.
  - right. split; [by apply H2 | exact Hv].
Qed.

(** X9: an entry of [list_one] whose name differs, up to case, from the
    name of every entry of [list_two] that has a version spec is in every
    result, lower-cased. *)
Theorem pip_constraint_update_keeps_unmatched list_one list_two r b :
  pip_constraint_update list_one list_two r ->
  b ∈ list_one ->
  (forall o, o ∈ list_two -> has_version_spec o = true ->
             name_key o <> name_key b) ->
  exists out, r = Ok out /\ Py.lower b ∈ out.
Proof.
  intros Hr Hb Hne.
  destruct (pip_constraint_update_lowered _ _ _ Hr)
    as (l1 & l2 & -> & _ & H1 & H2 & _).
  eexists. split; [reflexivity|]. rewrite sorted_Permutation.
  apply foldl_merge_override_keeps.
  - apply H1. by apply list_elem_of_fmap_2.
  - intros o Ho Hv. apply H2, list_elem_of_fmap in Ho as (o0 & -> & Ho0).
    rewrite has_version_spec_lower in Hv.
    unfold name_key. rewrite !parsed_name_lower, !lower_idempotent.
    by apply Hne.
Qed.

Lemma pip_constraint_update_keys list_one list_two out k :
  pip_constraint_update list_one list_two (Ok out) ->
  (exists y, y ∈ out /\ name_key y = k)
  <-> (exists b, b ∈ list_one /\ name_key b = k)
      \/ (exists o, o ∈ list_two /\ has_version_spec o = true
                    /\ name_key o = k).
Proof.
  intros Hr.
  destruct (pip_constraint_update_lowered _ _ _ Hr)
    as (l1 & l2 & [= ->] & _ & H1 & H2 & _).
  assert (Hkey : forall x, name_key (Py.lower x) = name_key x).
  { intros x. unfold name_key. by rewrite parsed_name_lower, lower_idempotent. }
  split.
  - intros (y & Hy & <-). rewrite sorted_Permutation in Hy.
    apply elem_of_foldl_merge_override in Hy as [Hy|[Hy Hv]].
    + apply H1, list_elem_of_fmap in Hy as (b & -> & Hb). left. eauto.
    + apply H2, list_elem_of_fmap in Hy as (o & -> & Ho). right.
      rewrite has_version_spec_lower in Hv. eauto.
  - intros [(b & Hb & <-)|(o & Ho & Hv & <-)].
    + destruct (foldl_merge_override_key (Py.lower b) l1 l2) as (y & Hy & E).
      { apply H1. by apply list_elem_of_fmap_2. }
      exists y. rewrite sorted_Permutation, E. auto.
    + destruct (foldl_merge_override_override_key (Py.lower o) l1 l2)
        as (y & Hy & E).
      { apply H2. by apply list_elem_of_fmap_2. }
      { by rewrite has_version_spec_lower. }
      exists y. rewrite sorted_Permutation, E. auto.
Qed.

(** X10: no requirement name is lost and none is invented: up to case,
    the names in a result are the names in [list_one] together with the
    names of the entries of [list_two] that have a version spec. *)
Theorem pip_constraint_update_names list_one list_two r :
  pip_constraint_update list_one list_two r ->
  exists out,
    r = Ok out
    /\ forall k,
         (exists y, y ∈ out /\ name_key y = k)
         <-> (exists b, b ∈ list_one /\ name_key b = k)
             \/ (exists o, o ∈ list_two /\ has_version_spec o = true
                           /\ name_key o = k).
Proof.
  intros Hr.
  destruct (pip_constraint_update_lowered _ _ _ Hr) as (l1 & l2 & E & _).
  subst r. eexists. split; [reflexivity|].
  intros k. by apply pip_constraint_update_keys.
Qed.

(** X11: when no entry of [list_two] has a version spec (an empty
    [list_two] for one), the result is [list_one] lower-cased, without
    duplicates and sorted. *)
Theorem pip_constraint_update_no_versions list_one list_two r :
  (forall o, o ∈ list_two -> has_version_spec o = false) ->
  pip_constraint_update list_one list_two r ->
  exists out,
    r = Ok out
    /\ Sorted String.le out
    /\ NoDup out
    /\ forall x, x ∈ out <-> x ∈ Py.lower <$> list_one.
Proof.
  intros Hno Hr.
  destruct (pip_constraint_update_lowered _ _ _ Hr)
    as (l1 & l2 & -> & Hnd & H1 & H2 & _).
  eexists. split; [reflexivity|].
  rewrite foldl_merge_override_ignored.
  - split; [apply sorted_Sorted|]. split.
    + by rewrite sorted_Permutation.
    + intros x. by rewrite sorted_Permutation.
  - apply Forall_forall. intros o Ho.
    apply H2, list_elem_of_fmap in Ho as (o0 & -> & Ho0).
    rewrite has_version_spec_lower. by apply Hno.
Qed.

(** ** [pip_requirement_names] after [pip_constraint_update] *)

Lemma kept_name_key requirements x :
  kept_name requirements x
  <-> x <> "" /\ Py.startswith x "#" = false
      /\ exists r, r ∈ requirements /\ name_key r = x.
Proof.
  unfold kept_name, name_key, parsed_name. split.
  - intros (r & n & v & m & Hr & E & Hne & Hst & ->).
    split; [by apply lower_nonempty|].
    split; [by rewrite startswith_lower|].
    exists r. by rewrite E.
  - intros (Hne & Hst & r & Hr & <-).
    destruct (pip_requirement_split_returns r) as (n & v & m & E & _).
    rewrite E in *. exists r, n, v, m. repeat split; auto.
    + intros ->. by apply Hne.
    + by rewrite startswith_lower in Hst.
Qed.

(** X12: the names of a merged list are the names of [list_one]
    together with those of the entries of [list_two] that have a version
    spec: [pip_requirement_names] gives the same result on a result of
    [pip_constraint_update] as on [list_one] followed by these entries. *)
Theorem pip_requirement_names_of_update list_one list_two out r1 r2 :
  pip_constraint_update list_one list_two (Ok out) ->
  pip_requirement_names out r1 ->
  pip_requirement_names
    (list_one ++ filter (fun o => has_version_spec o = true) list_two) r2 ->
  r1 = r2.
Proof.
  intros Hu H1 H2.
  destruct (pip_requirement_names_cases _ _ H1) as (o1 & -> & Hs1 & Hn1 & He1).
  destruct (pip_requirement_names_cases _ _ H2) as (o2 & -> & Hs2 & Hn2 & He2).
  f_equal. apply sorted_nodup_unique; auto.
  intros x. rewrite He1, He2, !kept_name_key.
  rewrite (pip_constraint_update_keys _ _ _ x Hu).
  split; intros (Hne & Hst & H); (split; [exact Hne|]); (split; [exact Hst|]).
  - destruct H as [(b & Hb & E)|(o & Ho & Hv & E)].
    + exists b. split; [|exact E]. apply elem_of_app. auto.
    + exists o. split; [|exact E]. apply elem_of_app. right.
      by apply list_elem_of_filter.
  - destruct H as (r & Hr & E).
    apply elem_of_app in Hr as [Hr|Hr]; [left; eauto|].
    apply list_elem_of_filter in Hr as [Hv Hr]. right. eauto.
Qed.

(** ** [pip_constraint_update] on lists without repeated names *)

Lemma replace_or_append_elem_of x override base :
  NoDup (name_key <$> base) ->
  x ∈ replace_or_append override base
  <-> x = override \/ (x ∈ base /\ name_key x <> name_key override).
Proof.
  induction base as [|entry base IH]; cbn [replace_or_append fmap list_fmap].
  - intros _. rewrite list_elem_of_singleton. split; [auto|].
    intros [?|[H _]]; [done | by apply elem_of_nil in H].
  - intros [Hentry Hbase]%NoDup_cons.
    destruct (same_name entry override) eqn:E.
    + apply same_name_key in E. rewrite !elem_of_cons. split.
      * intros [?|Hx]; [auto|]. right. split; [auto|].
        intros Hk. apply Hentry. rewrite E, <- Hk.
        by apply list_elem_of_fmap_2.
      * intros [?|[[->|Hx] Hk]]; [auto|congruence|auto].
    + apply same_name_key_false in E. rewrite !elem_of_cons, (IH Hbase).
      split.
      * intros [->|[?|[Hx Hk]]]; auto.
      * intros [?|[[->|Hx] Hk]]; auto.
Qed.

Lemma replace_or_append_NoDup_keys override base :
  NoDup (name_key <$> base) ->
  NoDup (name_key <$> replace_or_append override base).
Proof.
  induction base as [|entry base IH]; cbn [replace_or_append fmap list_fmap].
  - intros _. apply NoDup_singleton.
  - intros [Hentry Hbase]%NoDup_cons.
    destruct (same_name entry override) eqn:E; cbn [fmap list_fmap].
    + apply same_name_key in E. rewrite <- E. by apply NoDup_cons.
    + apply same_name_key_false in E. apply NoDup_cons. split; [|by apply IH].
      intros (y & Hk & Hy)%list_elem_of_fmap.
      apply (replace_or_append_elem_of _ _ _ Hbase) in Hy as [->|[Hy _]];
        [congruence|].
      apply Hentry. rewrite Hk. by apply list_elem_of_fmap_2.
Qed.

Lemma merge_override_NoDup_keys base override :
  NoDup (name_key <$> base) ->
  NoDup (name_key <$> merge_override base override).
Proof.
  unfold merge_override. destruct (has_version_spec override); [|auto].
  apply replace_or_append_NoDup_keys.
Qed.

Lemma foldl_merge_override_NoDup_keys base overrides :
  NoDup (name_key <$> base) ->
  NoDup (name_key <$> foldl merge_override base overrides).
Proof.
  revert base. induction overrides as [|o overrides IH]; intros base Hb;
    cbn [foldl]; [exact Hb|].
  by apply IH, merge_override_NoDup_keys.
Qed.

Lemma foldl_merge_override_elem_of x base overrides :
  NoDup (name_key <$> base) ->
  (forall o o', o ∈ overrides -> o' ∈ overrides ->
                has_version_spec o = true -> has_version_spec o' = true ->
                name_key o = name_key o' -> o = o') ->
  x ∈ foldl merge_override base overrides
  <-> (x ∈ overrides /\ has_version_spec x = true)
      \/ (x ∈ base
          /\ forall o, o ∈ overrides -> has_version_spec o = true ->
                       name_key o <> name_key x).
Proof.
  revert base. induction overrides as [|o overrides IH]; intros base Hb Huniq;
    cbn [foldl].
  - split; [|intros [[H _]|[H _]]; [by apply elem_of_nil in H | exact H]].
    intros Hx. right. split; [exact Hx|]. intros o Ho. by apply elem_of_nil in Ho.
  - rewrite IH; [|by apply merge_override_NoDup_keys|];
      [|intros o1 o2 H1 H2; apply Huniq; apply elem_of_cons; auto].
    assert (Hrest : forall o', o' ∈ overrides -> o' ∈ o :: overrides)
      by (intros; apply elem_of_cons; auto).
    assert (Ho : o ∈ o :: overrides) by (apply elem_of_cons; auto).
    unfold merge_override. destruct (has_version_spec o) eqn:Hv.
    + rewrite (replace_or_append_elem_of _ _ _ Hb). split.
      * intros [[Hx Hxv]|[[->|[Hx Hk]] Hno]]; [left; auto|left; auto|].
        right. split; [exact Hx|]. intros o' [->|Ho']%elem_of_cons; auto.
      * intros [[[->|Hx]%elem_of_cons Hxv]|[Hx Hno]].
        -- destruct (decide (o ∈ overrides)) as [Hin|Hout]; [left; auto|].
           right. split; [auto|]. intros o' Ho' Hv' Hk.
           apply Hout. by rewrite <- (Huniq o' o (Hrest _ Ho') Ho Hv' Hv Hk).
        -- left. auto.
        -- right. split; [|intros o' Ho'; apply Hno; auto].
           right. split; [exact Hx|]. intros Hk. by apply (Hno o Ho Hv).
    + split.
      * intros [[Hx Hxv]|[Hx Hno]]; [left; auto|].
        right. split; [exact Hx|]. intros o' [->|Ho']%elem_of_cons; [congruence|auto].
      * intros [[[->|Hx]%elem_of_cons Hxv]|[Hx Hno]]; [congruence|left; auto|].
        right. split; [exact Hx|]. intros o' Ho'. apply Hno; auto.
Qed.

Lemma NoDup_keys_enumeration (l : list string) (list_one : list string) :
  NoDup l ->
  (forall x, x ∈ l <-> x ∈ Py.lower <$> list_one) ->
  (forall b b', b ∈ list_one -> b' ∈ list_one ->
                name_key b = name_key b' -> Py.lower b = Py.lower b') ->
  NoDup (name_key <$> l).
Proof.
  intros Hnd Hl Huniq. apply NoDup_fmap_2_strong; [|exact Hnd].
  intros x y Hx Hy Hk.
  apply Hl, list_elem_of_fmap in Hx as (b & -> & Hb).
  apply Hl, list_elem_of_fmap in Hy as (b' & -> & Hb').
  apply Huniq; auto. unfold name_key in *.
  by rewrite !parsed_name_lower, !lower_idempotent in Hk.
Qed.

Lemma pip_constraint_update_unique_names list_one list_two r :
  (forall b b', b ∈ list_one -> b' ∈ list_one ->
                name_key b = name_key b' -> Py.lower b = Py.lower b') ->
  (forall o o', o ∈ list_two -> o' ∈ list_two ->
                has_version_spec o = true -> has_version_spec o' = true ->
                name_key o = name_key o' -> Py.lower o = Py.lower o') ->
  pip_constraint_update list_one list_two r ->
  exists out,
    r = Ok out
    /\ Sorted String.le out
    /\ NoDup out
    /\ forall x,
         x ∈ out
         <-> (x ∈ Py.lower <$> list_two /\ has_version_spec x = true)
             \/ (x ∈ Py.lower <$> list_one
                 /\ forall o, o ∈ list_two -> has_version_spec o = true ->
                              name_key o <> name_key x).
Proof.
  intros Hu1 Hu2 Hr.
  destruct (pip_constraint_update_lowered _ _ _ Hr)
    as (l1 & l2 & -> & Hnd & H1 & H2 & _).
  assert (Hkey : forall x, name_key (Py.lower x) = name_key x).
  { intros x. unfold name_key. by rewrite parsed_name_lower, lower_idempotent. }
  pose proof (NoDup_keys_enumeration _ _ Hnd H1 Hu1) as Hk1.
  assert (Hu2' : forall o o', o ∈ l2 -> o' ∈ l2 ->
                   has_version_spec o = true -> has_version_spec o' = true ->
                   name_key o = name_key o' -> o = o').
  { intros o o' Ho Ho' Hv Hv' Hk.
    apply H2, list_elem_of_fmap in Ho as (a & -> & Ha).
    apply H2, list_elem_of_fmap in Ho' as (a' & -> & Ha').
    rewrite has_version_spec_lower in Hv, Hv'. rewrite !Hkey in Hk.
    by apply Hu2. }
  eexists. split; [reflexivity|]. split; [apply sorted_Sorted|]. split.
  - rewrite sorted_Permutation.
    eapply NoDup_fmap_1, foldl_merge_override_NoDup_keys, Hk1.
  - intros x. rewrite sorted_Permutation.
    rewrite (foldl_merge_override_elem_of _ _ _ Hk1 Hu2'), H1, H2.
    split; (intros [?|[Hx Hno]]; [left; done|right; split; [done|]]).
    + intros o Ho Hv. rewrite <- Hkey. apply Hno.
      * apply H2. by apply list_elem_of_fmap_2.
      * by rewrite has_version_spec_lower.
    + intros o Ho Hv.
      apply H2, list_elem_of_fmap in Ho as (a & -> & Ha).
      rewrite has_version_spec_lower in Hv. rewrite Hkey. by apply Hno.
Qed.

(** X13: when, up to case, no two entries of [list_one] share a name and
    no two entries of [list_two] with a version spec do, the result does
    not depend on the order in which Python enumerates the sets: it is
    the sorted, duplicate-free list of the versioned entries of
    [list_two] and of the entries of [list_one] whose name none of them
    has, all lower-cased. *)
Theorem pip_constraint_update_deterministic list_one list_two r :
  (forall b b', b ∈ list_one -> b' ∈ list_one ->
                name_key b = name_key b' -> Py.lower b = Py.lower b') ->
  (forall o o', o ∈ list_two -> o' ∈ list_two ->
                has_version_spec o = true -> has_version_spec o' = true ->
                name_key o = name_key o' -> Py.lower o = Py.lower o') ->
  pip_constraint_update list_one list_two r ->
  (forall r', pip_constraint_update list_one list_two r' -> r' = r)
  /\ exists out,
       r = Ok out
       /\ Sorted String.le out
       /\ NoDup out
       /\ forall x,
            x ∈ out
            <-> (x ∈ Py.lower <$> list_two /\ has_version_spec x = true)
                \/ (x ∈ Py.lower <$> list_one
                    /\ forall o, o ∈ list_two -> has_version_spec o = true ->
                                 name_key o <> name_key x).
Proof.
  intros Hu1 Hu2 Hr.
  pose proof (pip_constraint_update_unique_names _ _ _ Hu1 Hu2 Hr) as H.
  split; [|exact H].
  intros r' Hr'.
  destruct H as (out & -> & Hs & Hn & He).
  destruct (pip_constraint_update_unique_names _ _ _ Hu1 Hu2 Hr')
    as (out' & -> & Hs' & Hn' & He').
  f_equal. apply sorted_nodup_unique; auto.
  intros x. by rewrite He, He'.
Qed.

(** ** The fields of a parsed git link *)

(** The first piece of [s.split(c)]: free of [c], and followed in [s] by
    nothing or by [c]. *)
Lemma split_char_head c s x :
  Py.index (Py.split (String c "") s) 0 = Ok x ->
  free_of c x = true
  /\ exists rest, s = x +:+ rest /\ (rest = "" \/ exists r, rest = String c r).
Proof.
  unfold Py.split, free_of.
  destruct (Py.split_once (String c "") s) as [[b a]|] eqn:E.
  - destruct (split_once_char _ _ _ _ E) as [Hb Hs].
    assert (exists n, String.length s = S n) as [n ->].
    { rewrite Hs, string_length_app. simpl. eexists. rewrite Nat.add_succ_r.
      reflexivity. }
    cbn [Py.split_max]. rewrite E. cbn. intros [= <-].
    split; [exact Hb|]. exists (String c a). eauto.
  - assert (Py.split_max (String.length s) (String c "") s = [s]) as ->.
    { destruct (String.length s); cbn [Py.split_max]; [reflexivity|].
      by rewrite E. }
    cbn. intros [= <-]. split; [by apply split_once_char_None|].
    exists "". rewrite string_app_nil_r. auto.
Qed.

Lemma rfind_next_0 c s :
  Py.rfind_next c s = 0%nat -> free_of c s = true.
Proof.
  unfold free_of. induction s as [|a s IH]; [reflexivity|].
  cbn [Py.rfind_next all_chars].
  destruct (Py.rfind_next c s); [|discriminate].
  destruct (Ascii.eqb a c); [discriminate|]. intros _. by rewrite IH.
Qed.

Lemma basename_no_slash p : free_of "/" (Py.basename p) = true.
Proof.
  unfold Py.basename. induction p as [|a p IH]; [reflexivity|].
  cbn [Py.rfind_next].
  destruct (Py.rfind_next "/" p) as [|k] eqn:E.
  - pose proof (rfind_next_0 _ _ E) as Hp.
    destruct (Ascii.eqb a "/") eqn:Ea; cbn [Py.drop]; [exact Hp|].
    unfold free_of in *. cbn [all_chars]. by rewrite Ea, Hp.
  - exact IH.
Qed.

Lemma free_of_prefix c s t : free_of c (s +:+ t) = true -> free_of c s = true.
Proof.
  unfold free_of. rewrite all_chars_app, andb_true_iff. tauto.
Qed.

Lemma free_of_suffix c s t : free_of c (s +:+ t) = true -> free_of c t = true.
Proof.
  unfold free_of. rewrite all_chars_app, andb_true_iff. tauto.
Qed.

Lemma free_of_lower c s :
  caseless c = true -> free_of c s = true -> free_of c (Py.lower s) = true.
Proof.
  intros Hc. unfold free_of. induction s as [|a s IH]; [reflexivity|].
  cbn [Py.lower all_chars]. rewrite !andb_true_iff. intros [Ha Hs].
  split; [|auto].
  by rewrite Ascii.eqb_sym, (lower_char_caseless _ _ Hc), Ascii.eqb_sym.
Qed.

Lemma plugin_path_inv (_branch : list string) o :
  (if (1 <? length _branch)%nat then
     last_fragment ← Py.index_last _branch;
     if Py.contains "subdirectory=" last_fragment then
       value ← Py.index_last (Py.split "subdirectory=" last_fragment);
       Some <$> Py.index (Py.split "&" value) 0
     else Ok None
   else Ok None) = Ok o ->
  forall p, o = Some p ->
            exists value, Py.index (Py.split "&" value) 0 = Ok p.
Proof.
  destruct (1 <? length _branch)%nat; [|intros [= <-]; discriminate].
  destruct (Py.index_last _branch) as [last_fragment|];
    cbn [mbind result_bind]; [|discriminate].
  destruct (Py.contains _ _); [|intros [= <-]; discriminate].
  destruct (Py.index_last _) as [value|]; cbn [mbind result_bind];
    [|discriminate].
  destruct (Py.index (Py.split "&" value) 0) as [path|] eqn:E; cbn;
    [|discriminate].
  intros [= <-] p [= <-]. eauto.
Qed.

(** What [git_link_parse] computes from the working URL. *)
Lemma git_link_parse_url_inv repo _git_url link :
  git_link_parse_url repo _git_url = Ok link ->
  exists url fragment,
    (Py.split_once "@" _git_url = Some (url, fragment)
     \/ (Py.split_once "@" _git_url = None
         /\ url = _git_url /\ fragment = "master"))
    /\ Py.index (Py.split "#" fragment) 0 = Ok (GitLink.version link)
    /\ Py.lower
         <$> Py.index (Py.split ".git" (Py.basename (Py.rstrip "/" url))) 0
       = Ok (GitLink.name link)
    /\ GitLink.url link = url
    /\ GitLink.original link = repo
    /\ (forall p, GitLink.plugin_path link = Some p ->
                  exists value, Py.index (Py.split "&" value) 0 = Ok p).
Proof.
  unfold git_link_parse_url. cbv zeta.
  assert (Hc : Py.contains "@" _git_url
               = match Py.split_once "@" _git_url with
                 | Some _ => true
                 | None => false
                 end) by reflexivity.
  rewrite Hc. clear Hc. cbn [Py.split_max].
  destruct (Py.split_once "@" _git_url) as [[b a]|] eqn:Eat;
    cbn [Py.unpack2 mbind result_bind].
  all: destruct (Py.index (Py.split "#" _) 0) as [branch|e] eqn:Eb;
    cbn [mbind result_bind]; [|discriminate].
  all: match goal with
       | |- context [(if (1 <? length ?l)%nat then ?x else ?y) ≫= _] =>
           destruct (if (1 <? length l)%nat then x else y) as [o|e] eqn:Ep;
           [|discriminate]
       end.
  all: cbn [mbind result_bind].
  all: destruct (Py.index (Py.split ".git" _) 0) as [name_0|e] eqn:En;
    cbn [mbind result_bind]; [|discriminate].
  all: intros [= <-]; cbn [GitLink.name GitLink.version GitLink.plugin_path
                             GitLink.url GitLink.original].
  - exists b, a. split; [auto|]. split; [exact Eb|].
    split; [by rewrite En|]. repeat split. exact (plugin_path_inv _ _ Ep).
  - exists _git_url, "master". split; [auto|]. split; [exact Eb|].
    split; [by rewrite En|]. repeat split.
    exact (plugin_path_inv (Py.split "#" "master") _ Ep).
Qed.

(** X14: [git_link_parse] returns on every input, and in what it
    returns [original] is the input, [url] has no [@], [version] has no
    [#], the plugin path if any has no [&], and [name] has no upper-case
    letter and no [/]. *)
Theorem git_link_parse_field_shapes repo :
  exists link,
    git_link_parse repo = Ok link
    /\ GitLink.original link = repo
    /\ free_of "@" (GitLink.url link) = true
    /\ free_of "#" (GitLink.version link) = true
    /\ (forall p, GitLink.plugin_path link = Some p -> free_of "&" p = true)
    /\ is_lowered (GitLink.name link) = true
    /\ free_of "/" (GitLink.name link) = true.
Proof.
  destruct (git_link_parse_returns repo) as [link E]. exists link.
  split; [exact E|]. unfold git_link_parse in E.
  destruct (git_url_of repo) as [_git_url|e]; [|discriminate].
  cbn [mbind result_bind] in E.
  destruct (git_link_parse_url_inv _ _ _ E)
    as (url & fragment & Hat & Hv & Hn & Hu & Ho & Hp).
  split; [exact Ho|]. split; [|split; [|split; [|split]]].
  - rewrite Hu. destruct Hat as [Hat|(Hat & -> & _)].
    + by destruct (split_once_char _ _ _ _ Hat).
    + by apply split_once_char_None.
  - by destruct (split_char_head _ _ _ Hv).
  - intros p Hpath. destruct (Hp p Hpath) as [value Hvalue].
    by destruct (split_char_head _ _ _ Hvalue).
  - destruct (Py.index (Py.split ".git" _) 0) as [name_0|]; [|discriminate].
    cbn in Hn. injection Hn as <-. apply lower_is_lowered.
  - destruct (Py.index (Py.split ".git" _) 0) as [name_0|] eqn:E0;
      [|discriminate].
    cbn in Hn. injection Hn as <-. apply free_of_lower; [reflexivity|].
    unfold Py.index, Py.split in E0.
    destruct (split_max_head_prefix
                (String.length (Py.basename (Py.rstrip "/" url))) ".git"
                (Py.basename (Py.rstrip "/" url)))
      as (x & l & Ex & rest & Hrest).
    rewrite Ex in E0. injection E0 as <-.
    pose proof (basename_no_slash (Py.rstrip "/" url)) as Hb.
    rewrite Hrest in Hb. by apply free_of_prefix in Hb.
Qed.

Lemma split_once_None sep s :
  Py.split_once sep s = None -> ~ occurs_in sep s.
Proof.
  intros E (pre & post & ->).
  destruct (split_once_complete sep pre post) as (b & a & E'). congruence.
Qed.

(** X15: the input is put together from the fields: it is [url],
    preceded by nothing (when ["git+"] does not occur in it) or by a text
    ending in ["git+"], and followed by nothing (then the version is
    ["master"] and there is no plugin path) or by [@], the version, and
    then nothing or a fragment that starts with [#]. *)
Theorem git_link_parse_recomposes repo :
  exists link prefix suffix,
    git_link_parse repo = Ok link
    /\ repo = prefix +:+ GitLink.url link +:+ suffix
    /\ ((prefix = "" /\ ~ occurs_in "git+" repo)
        \/ exists p, prefix = p +:+ "git+")
    /\ ((suffix = "" /\ GitLink.version link = "master"
         /\ GitLink.plugin_path link = None)
        \/ exists rest,
             suffix = "@" +:+ GitLink.version link +:+ rest
             /\ (rest = "" \/ exists r, rest = "#" +:+ r)).
Proof.
  assert (Hurl : exists prefix _git_url,
             git_url_of repo = Ok _git_url
             /\ repo = prefix +:+ _git_url
             /\ ((prefix = "" /\ ~ occurs_in "git+" repo)
                 \/ exists p, prefix = p +:+ "git+")).
  { destruct (git_url_of_cases repo) as [[E H]|(before & after & E & H)].
    - exists "", repo. split; [exact H|]. split; [reflexivity|]. left.
      split; [reflexivity | by apply split_once_None].
    - exists (before +:+ "git+"), after. split; [exact H|].
      split; [|eauto]. rewrite string_app_assoc.
      exact (split_once_Some _ _ _ _ E). }
  destruct Hurl as (prefix & _git_url & Eurl & Hrepo & Hprefix).
  unfold git_link_parse. rewrite Eurl. cbn [mbind result_bind].
  destruct (Py.split_once "@" _git_url) as [[url fragment]|] eqn:Eat.
  - destruct (git_link_parse_url_returns repo _git_url) as [link E].
    destruct (git_link_parse_url_inv _ _ _ E)
      as (url' & fragment' & Hat & Hv & _ & Hu & _).
    destruct Hat as [Hat|[Hat _]]; [|congruence].
    assert (url' = url /\ fragment' = fragment) as [-> ->]
      by (split; congruence).
    destruct (split_char_head _ _ _ Hv) as (_ & rest & Hfrag & Hrest).
    exists link, prefix, ("@" +:+ fragment).
    split; [exact E|]. rewrite Hu. split; [|split; [exact Hprefix|]].
    + rewrite Hrepo. f_equal. exact (split_once_Some _ _ _ _ Eat).
    + right. exists rest. split; [by rewrite Hfrag at 1 | exact Hrest].
  - destruct (git_link_parse_url_default repo _git_url)
      as (link & E & Hv & Hp & Hu & _).
    { by apply split_once_char_None. }
    exists link, prefix, "". split; [exact E|]. rewrite Hu.
    split; [by rewrite string_app_nil_r|]. split; [exact Hprefix|]. auto.
Qed.

(** ** A trailing slash and the name of the repository *)

Lemma strip_prefix_snoc sep s c :
  free_of c sep = true -> sep <> "" ->
  Py.strip_prefix sep (s +:+ String c "")
  = (fun r => r +:+ String c "") <$> Py.strip_prefix sep s.
Proof.
  unfold free_of. revert s. induction sep as [|a sep IH]; intros s Hfree Hne;
    [done|].
  cbn [all_chars] in Hfree. apply andb_true_iff in Hfree as [Ha Hsep].
  apply negb_true_iff in Ha.
  destruct s as [|b s].
  - rewrite string_app_nil_l. cbn [Py.strip_prefix]. by rewrite Ha.
  - rewrite string_app_cons. cbn [Py.strip_prefix].
    destruct (Ascii.eqb a b); [|reflexivity].
    destruct sep as [|a' sep]; [by destruct s|].
    by apply IH.
Qed.

Lemma split_once_snoc sep s c :
  free_of c sep = true -> sep <> "" ->
  Py.split_once sep (s +:+ String c "")
  = (fun '(before, after) => (before, after +:+ String c ""))
      <$> Py.split_once sep s.
Proof.
  intros Hfree Hne. induction s as [|a s IH].
  - assert (Hnil : Py.strip_prefix sep "" = None) by (by destruct sep).
    rewrite string_app_nil_l, !split_once_unfold.
    pose proof (strip_prefix_snoc sep "" c Hfree Hne) as H.
    rewrite string_app_nil_l in H. rewrite H, Hnil. reflexivity.
  - rewrite string_app_cons, (split_once_unfold sep (String a s)),
      split_once_unfold.
    pose proof (strip_prefix_snoc sep (String a s) c Hfree Hne) as H.
    rewrite string_app_cons in H. rewrite H.
    destruct (Py.strip_prefix sep (String a s)); [reflexivity|].
    cbn [fmap option_fmap option_map]. rewrite IH.
    destruct (Py.split_once sep s) as [[b r]|]; reflexivity.
Qed.

Lemma rstrip_snoc c s : Py.rstrip c (s +:+ String c "") = Py.rstrip c s.
Proof.
  induction s as [|a s IH].
  - rewrite string_app_nil_l. cbn [Py.rstrip]. by rewrite Ascii.eqb_refl.
  - rewrite string_app_cons. cbn [Py.rstrip]. by rewrite IH.
Qed.

Lemma git_url_of_snoc repo _git_url :
  git_url_of repo = Ok _git_url ->
  git_url_of (repo +:+ "/") = Ok (_git_url +:+ "/").
Proof.
  unfold git_url_of, Py.contains. cbn [Py.split_max].
  rewrite (split_once_snoc "git+" repo "/") by done.
  destruct (Py.split_once "git+" repo) as [[b a]|]; cbn; congruence.
Qed.

Lemma git_link_parse_name_of repo link :
  git_link_parse repo = Ok link ->
  exists _git_url url,
    git_url_of repo = Ok _git_url
    /\ (url = _git_url /\ Py.split_once "@" _git_url = None
        \/ exists fragment, Py.split_once "@" _git_url = Some (url, fragment))
    /\ Py.lower
         <$> Py.index (Py.split ".git" (Py.basename (Py.rstrip "/" url))) 0
       = Ok (GitLink.name link).
Proof.
  unfold git_link_parse.
  destruct (git_url_of repo) as [_git_url|]; [|discriminate].
  cbn [mbind result_bind]. intros E.
  destruct (git_link_parse_url_inv _ _ _ E)
    as (url & fragment & Hat & _ & Hn & _).
  exists _git_url, url. split; [reflexivity|]. split; [|exact Hn].
  destruct Hat as [Hat|(Hat & -> & _)]; eauto.
Qed.

(** X16: a slash added at the end of the input does not change the name
    [git_link_parse_name] returns. *)
Theorem git_link_parse_name_trailing_slash repo :
  git_link_parse_name (repo +:+ "/") = git_link_parse_name repo.
Proof.
  unfold git_link_parse_name.
  destruct (git_link_parse_returns repo) as [link E].
  destruct (git_link_parse_returns (repo +:+ "/")) as [link' E'].
  rewrite E, E'. cbn [fmap result_fmap]. f_equal.
  destruct (git_link_parse_name_of _ _ E) as (g & url & Hg & Hat & Hn).
  destruct (git_link_parse_name_of _ _ E') as (g' & url' & Hg' & Hat' & Hn').
  rewrite (git_url_of_snoc _ _ Hg) in Hg'. injection Hg' as <-.
  rewrite (split_once_snoc "@" g "/") in Hat' by done.
  assert (Hstrip : Py.rstrip "/" url' = Py.rstrip "/" url).
  { destruct Hat as [[-> Hat]|[fragment Hat]]; rewrite Hat in Hat';
      cbn in Hat'.
    - destruct Hat' as [[-> _]|[? ?]]; [apply rstrip_snoc | discriminate].
    - destruct Hat' as [[_ ?]|[f' Hf']]; [discriminate|]. congruence. }
  rewrite Hstrip in Hn'. congruence.
Qed.

(** ** More on [bit_length_power_of_2] *)

Lemma bit_length_power_of_2_ge value :
  (1 <= value)%Z -> (value <= bit_length_power_of_2 value)%Z.
Proof.
  intros Hv. unfold bit_length_power_of_2.
  destruct (Z.eq_dec value 1%Z) as [->|Hne]; [vm_compute; discriminate|].
  pose proof (bit_length_bounds (value - 1)). lia.
Qed.

Lemma bit_length_power_of_2_least value k :
  (1 <= value)%Z -> (0 <= k)%Z -> (value <= 2 ^ k)%Z ->
  (bit_length_power_of_2 value <= 2 ^ k)%Z.
Proof.
  intros Hv Hk Hle. unfold bit_length_power_of_2.
  destruct (Z.eq_dec value 1%Z) as [->|Hne].
  - change (2 ^ bit_length (1 - 1))%Z with 1%Z.
    pose proof (Z.pow_pos_nonneg 2 k). lia.
  - assert (Hpos : (0 < value - 1)%Z) by lia.
    pose proof (bit_length_bounds _ Hpos) as [Hlow Hhigh].
    destruct (Z_le_gt_dec (bit_length (value - 1)) k) as [Hbk|Hbk].
    + apply Z.pow_le_mono_r; lia.
    + assert (2 ^ k <= 2 ^ (bit_length (value - 1) - 1))%Z
        by (apply Z.pow_le_mono_r; lia).
      lia.
Qed.

Lemma bit_length_opp n : bit_length (- n) = bit_length n.
Proof.
  unfold bit_length. rewrite Z.abs_opp.
  destruct (Z.eqb_spec n 0), (Z.eqb_spec (- n) 0); try reflexivity; lia.
Qed.

(** X17: for [value >= 1] the result is less than twice [value]; powers
    of two are returned as they are, so the filter is idempotent. *)
Theorem bit_length_power_of_2_fixed_points (value : Z) :
  (1 <= value)%Z ->
  (value <= bit_length_power_of_2 value < 2 * value)%Z
  /\ bit_length_power_of_2 (bit_length_power_of_2 value)
     = bit_length_power_of_2 value
  /\ (forall k, (0 <= k)%Z -> bit_length_power_of_2 (2 ^ k) = (2 ^ k)%Z).
Proof.
  intros Hv.
  assert (Hpow : forall k, (0 <= k)%Z -> bit_length_power_of_2 (2 ^ k) = (2 ^ k)%Z).
  { intros k Hk. apply Z.le_antisymm.
    - apply bit_length_power_of_2_least; [|exact Hk|lia].
      pose proof (Z.pow_pos_nonneg 2 k). lia.
    - apply bit_length_power_of_2_ge. pose proof (Z.pow_pos_nonneg 2 k). lia. }
  split; [|split; [|exact Hpow]].
  - split; [by apply bit_length_power_of_2_ge|].
    unfold bit_length_power_of_2.
    destruct (Z.eq_dec value 1%Z) as [->|Hne]; [reflexivity|].
    assert (Hpos : (0 < value - 1)%Z) by lia.
    pose proof (bit_length_bounds _ Hpos) as [Hlow _].
    pose proof (bit_length_nonneg (value - 1)).
    assert (bit_length (value - 1) <> 0)%Z.
    { unfold bit_length. destruct (Z.eqb_spec (value - 1) 0); [lia|].
      pose proof (Z.log2_nonneg (Z.abs (value - 1))). lia. }
    replace (bit_length (value - 1))
      with (Z.succ (bit_length (value - 1) - 1)) by lia.
    rewrite Z.pow_succ_r by lia. lia.
  - unfold bit_length_power_of_2 at 2 3. apply Hpow, bit_length_nonneg.
Qed.

Lemma bit_length_power_of_2_fixed_points_witness :
  (6 <= bit_length_power_of_2 6 < 2 * 6)%Z
  /\ bit_length_power_of_2 (bit_length_power_of_2 6) = bit_length_power_of_2 6
  /\ (forall k, (0 <= k)%Z -> bit_length_power_of_2 (2 ^ k) = (2 ^ k)%Z).
Proof. apply (bit_length_power_of_2_fixed_points 6). lia. Defined.

(** X18: the filter is monotone on the values from 1 on. *)
Theorem bit_length_power_of_2_monotone (value1 value2 : Z) :
  (1 <= value1)%Z -> (value1 <= value2)%Z ->
  (bit_length_power_of_2 value1 <= bit_length_power_of_2 value2)%Z.
Proof.
  intros H1 H12.
  unfold bit_length_power_of_2 at 2.
  apply bit_length_power_of_2_least; [exact H1|apply bit_length_nonneg|].
  pose proof (bit_length_power_of_2_ge value2). 
  unfold bit_length_power_of_2 in H at 1. lia.
Qed.

Lemma bit_length_power_of_2_monotone_witness :
  (bit_length_power_of_2 3 <= bit_length_power_of_2 9)%Z.
Proof. apply bit_length_power_of_2_monotone; lia. Defined.

(** X19: the bit length is taken of the absolute value, so the filter is
    symmetric about 1: a value below 1 gives what [2 - value] gives, which
    is at least 2 and not the smallest power of two above the value; 0
    gives 2. *)
Theorem bit_length_power_of_2_below_one (value : Z) :
  bit_length_power_of_2 value = bit_length_power_of_2 (2 - value)
  /\ ((value <= 0)%Z -> (2 <= bit_length_power_of_2 value)%Z)
  /\ bit_length_power_of_2 0 = 2%Z.
Proof.
  assert (Hsym : bit_length_power_of_2 value = bit_length_power_of_2 (2 - value)).
  { unfold bit_length_power_of_2.
    replace (2 - value - 1)%Z with (- (value - 1))%Z by lia.
    by rewrite bit_length_opp. }
  split; [exact Hsym|]. split; [|reflexivity].
  intros Hv. rewrite Hsym.
  pose proof (bit_length_power_of_2_ge (2 - value)). lia.
Qed.

(** ** [_deprecated] and its logger *)




(** ** [string_2_int] on the two string types *)

Lemma encode_utf8_ascii bytes :
  is_ascii bytes = true ->
  encode_utf8 (Unicode (code_points bytes)) = Ok bytes.
Proof.
  cbn [encode_utf8]. intros H. f_equal.
  induction bytes as [|c s IH]; [reflexivity|].
  cbn [is_ascii] in H. apply andb_true_iff in H as [Hc Hs].
  cbn [code_points foldr]. rewrite (IH Hs).
  unfold utf8_encode_point. rewrite Hc. unfold byte.
  rewrite ascii_N_embedding. reflexivity.
Qed.

(** X21: an ASCII [str] and the [unicode] string of the same characters
    get the same number, whatever the digest function. *)
Theorem string_2_int_str_unicode (sha256_hexdigest : string -> string) bytes :
  is_ascii bytes = true ->
  string_2_int sha256_hexdigest (Str bytes)
  = string_2_int sha256_hexdigest (Unicode (code_points bytes)).
Proof.
  intros H. unfold string_2_int.
  rewrite (encode_utf8_ascii _ H). cbn [encode_utf8]. rewrite H. reflexivity.
Qed.

Lemma string_2_int_str_unicode_witness :
  string_2_int (fun data => data) (Str "cinder")
  = string_2_int (fun data => data) (Unicode (code_points "cinder")).
Proof. apply string_2_int_str_unicode. reflexivity. Defined.

(** ** [get_netloc], [get_netloc_no_port], [get_netorigin] *)

(** X22: whatever [urlparse] does, [get_netloc_no_port] fails exactly
    when [get_netloc] does and with the same filter error; otherwise it
    returns the text of the netloc before its first colon: a prefix of
    the netloc without any colon, followed there by nothing or by a
    colon.  [get_netorigin] returns the scheme, ["://"] and what
    [get_netloc] returns. *)
Theorem netloc_filters
  (urlparse : string -> string + Url.parse_result) (url : string) :
  match get_netloc urlparse url with
  | inl e =>
      get_netloc_no_port urlparse url = inl e
      /\ (exists message, e = AnsibleFilterError message)
      /\ exists message,
           get_netorigin urlparse url = inl (AnsibleFilterError message)
  | inr netloc =>
      (exists host rest,
          get_netloc_no_port urlparse url = inr host
          /\ free_of ":" host = true
          /\ netloc = host +:+ rest
          /\ (rest = "" \/ exists port, rest = ":" +:+ port))
      /\ exists scheme,
           urlparse url = inr (Url.ParseResult scheme netloc)
           /\ get_netorigin urlparse url = inr (scheme +:+ "://" +:+ netloc)
  end.
Proof.
  unfold get_netloc_no_port, get_netorigin, get_netloc.
  destruct (urlparse url) as [exp|[scheme netloc]]; cbn [Url.netloc Url.scheme].
  - eauto.
  - destruct (index_split_0 ":" netloc) as [host E]. rewrite E.
    destruct (split_char_head _ _ _ E) as (Hfree & rest & Hn & Hrest).
    split; [|eauto]. exists host, rest. auto.
Qed.

(** ** [splitlines] *)

Example splitlines_mixed :
  splitlines (String "a" (String CR (String LF (String "b" (String LF
               (String LF (String "c" (String CR "")))))))) = ["a"; "b"; ""; "c"].
Proof. reflexivity. Qed.

Lemma splitlines_nil s : splitlines s = [] -> s = "".
Proof.
  destruct s as [|c s]; [reflexivity|]. cbn [splitlines].
  destruct (Ascii.eqb c LF); [discriminate|].
  destruct (Ascii.eqb c CR).
  - destruct s as [|c' s]; [discriminate|].
    destruct (Ascii.eqb c' LF); discriminate.
  - destruct (splitlines s); discriminate.
Qed.

Lemma splitlines_cons_line c s :
  Ascii.eqb c LF = false -> Ascii.eqb c CR = false ->
  splitlines (String c s)
  = match splitlines s with
    | [] => [String c ""]
    | line :: lines => String c line :: lines
    end.
Proof. intros H1 H2. cbn [splitlines]. by rewrite H1, H2. Qed.

Lemma splitlines_one_line s :
  forall n, (String.length s <= n)%nat ->
  Forall (fun line => one_line line = true) (splitlines s).
Proof.
  intros n. revert s. induction n as [|n IH]; intros s Hlen.
  - destruct s; [constructor | simpl in Hlen; lia].
  - destruct s as [|c s]; [constructor|]. simpl in Hlen.
    cbn [splitlines].
    destruct (Ascii.eqb c LF) eqn:E1.
    { constructor; [reflexivity | apply IH; lia]. }
    destruct (Ascii.eqb c CR) eqn:E2.
    { destruct s as [|c' s]; [repeat constructor|]. simpl in Hlen.
      destruct (Ascii.eqb c' LF); (constructor; [reflexivity|]); apply IH;
        simpl; lia. }
    pose proof (IH s ltac:(lia)) as Hs.
    destruct (splitlines s) as [|line lines]; [repeat constructor|].
    + unfold one_line, free_of. cbn [all_chars]. by rewrite E1, E2.
    + apply Forall_cons in Hs as [Hline Hlines]. constructor; [|exact Hlines].
      unfold one_line, free_of in *. cbn [all_chars]. by rewrite E1, E2.
Qed.

Lemma concat_cons sep x y l :
  String.concat sep (x :: y :: l) = x +:+ sep +:+ String.concat sep (y :: l).
Proof. reflexivity. Qed.

Lemma splitlines_join s :
  free_of CR s = true ->
  s = String.concat (String LF "") (splitlines s)
  \/ s = String.concat (String LF "") (splitlines s) +:+ String LF "".
Proof.
  unfold free_of. induction s as [|c s IH]; [auto|].
  cbn [all_chars]. rewrite andb_true_iff, negb_true_iff. intros [Hc Hs].
  specialize (IH Hs). cbn [splitlines]. rewrite Hc.
  destruct (Ascii.eqb_spec c LF) as [->|Hlf].
  - destruct (splitlines s) as [|line lines] eqn:E.
    + apply splitlines_nil in E as ->. right. reflexivity.
    + rewrite concat_cons, string_app_nil_l.
      destruct IH as [IH|IH]; [left|right]; rewrite IH at 1; reflexivity.
  - destruct (splitlines s) as [|line lines] eqn:E.
    + apply splitlines_nil in E as ->. left. reflexivity.
    + destruct lines as [|line' lines].
      * cbn [String.concat] in *.
        destruct IH as [IH|IH]; [left|right]; rewrite IH at 1; reflexivity.
      * rewrite !concat_cons in *.
        destruct IH as [IH|IH]; [left|right]; rewrite IH at 1; reflexivity.
Qed.

(** X23: no line returned by [splitlines] holds a line break; and for an
    input without [\r], joining the lines with [\n] gives the input
    back, up to one [\n] at its end. *)
Theorem splitlines_lines string_with_lines :
  Forall (fun line => one_line line = true) (splitlines string_with_lines)
  /\ (free_of CR string_with_lines = true ->
      string_with_lines
      = String.concat (String LF "") (splitlines string_with_lines)
      \/ string_with_lines
         = String.concat (String LF "") (splitlines string_with_lines)
           +:+ String LF "").
Proof.
  split; [by eapply splitlines_one_line | apply splitlines_join].
Qed.

Lemma splitlines_line_then line rest :
  one_line line = true ->
  splitlines (line +:+ String LF rest) = line :: splitlines rest.
Proof.
  unfold one_line, free_of. induction line as [|c line IH].
  - intros _. rewrite string_app_nil_l. cbn [splitlines].
    by rewrite Ascii.eqb_refl.
  - cbn [all_chars]. rewrite !andb_true_iff, !negb_true_iff.
    intros [[Hlf H1] [Hcr H2]]. rewrite string_app_cons.
    rewrite (splitlines_cons_line _ _ Hlf Hcr), IH; [reflexivity|].
    by rewrite H1, H2.
Qed.

Lemma splitlines_single line :
  one_line line = true -> line <> "" -> splitlines line = [line].
Proof.
  unfold one_line, free_of. induction line as [|c line IH]; [done|].
  cbn [all_chars]. rewrite !andb_true_iff, !negb_true_iff.
  intros [[Hlf H1] [Hcr H2]] _.
  rewrite (splitlines_cons_line _ _ Hlf Hcr).
  destruct line as [|c' line]; [reflexivity|].
  rewrite IH; [reflexivity | by rewrite H1, H2 | discriminate].
Qed.

(** X24: [splitlines] undoes joining with [\n]: for lines without line
    breaks, the last of them not empty, splitting their join gives the
    lines back. *)
Theorem splitlines_of_join (lines : list string) :
  Forall (fun line => one_line line = true) lines ->
  last lines <> Some "" ->
  splitlines (String.concat (String LF "") lines) = lines.
Proof.
  induction 1 as [|line lines Hline Hlines IH]; [reflexivity|].
  destruct lines as [|line' lines].
  - cbn [last String.concat]. intros Hlast.
    apply splitlines_single; [exact Hline | congruence].
  - rewrite concat_cons, (string_app_cons LF ""), string_app_nil_l.
    intros Hlast.
    rewrite (splitlines_line_then _ _ Hline), IH; [reflexivity|].
    by rewrite last_cons_cons in Hlast.
Qed.

Lemma splitlines_of_join_witness :
  splitlines (String.concat (String LF "") ["keystone"; ""; "nova"])
  = ["keystone"; ""; "nova"].
Proof.
  apply splitlines_of_join.
  - repeat constructor.
  - discriminate.
Defined.

(** ** The properties on concrete requirement lists *)

(** An enumeration of a concrete set, given as the goal asks for it. *)
Ltac enumerate_set :=
  unfold Py.list_of_set; cbn [_lower_set_lists fst snd];
  vm_compute elements; first [reflexivity | apply perm_swap].

Lemma names_of_foo_bar :
  pip_requirement_names ["Foo>=1.0"; "bar"] (Ok (Py.sorted ["foo"; "bar"])).
Proof.
  apply (pip_requirement_names_return _ ["foo"; "bar"]);
    [reflexivity | enumerate_set].
Qed.

Lemma update_of_foo_bar :
  pip_constraint_update ["foo==1.0"; "Bar==2.0"] ["FOO>=2.0"; "baz"]
    (Py.sorted <$> update_loop ["foo==1.0"; "bar==2.0"] ["baz"; "foo>=2.0"]).
Proof. apply pip_constraint_update_intro; enumerate_set. Qed.

Lemma update_of_foo_bar_result :
  pip_constraint_update ["foo==1.0"; "Bar==2.0"] ["FOO>=2.0"; "baz"]
    (Ok ["bar==2.0"; "foo>=2.0"]).
Proof. exact update_of_foo_bar. Qed.

Lemma pip_requirement_names_set_of_lowered_witness :
  Ok (Py.sorted ["foo"; "bar"]) = Ok (Py.sorted ["bar"; "foo"]).
Proof.
  apply (pip_requirement_names_set_of_lowered
           ["Foo>=1.0"; "bar"] ["BAR"; "foo>=1.0"; "bar"]).
  - intros x. change (Py.lower <$> ["Foo>=1.0"; "bar"])
      with ["foo>=1.0"; "bar"].
    change (Py.lower <$> ["BAR"; "foo>=1.0"; "bar"])
      with ["bar"; "foo>=1.0"; "bar"].
    rewrite !elem_of_cons, !elem_of_nil. tauto.
  - exact names_of_foo_bar.
  - apply (pip_requirement_names_return _ ["bar"; "foo"; "bar"]);
      [reflexivity | enumerate_set].
Defined.

Lemma pip_requirement_names_idempotent_witness :
  Ok (Py.sorted ["bar"; "foo"]) = Ok (Py.sorted ["foo"; "bar"]).
Proof.
  apply (pip_requirement_names_idempotent ["Foo>=1.0"; "bar"]).
  - exact names_of_foo_bar.
  - apply (pip_requirement_names_return _ ["bar"; "foo"]);
      [vm_compute; reflexivity | enumerate_set].
Defined.

Lemma pip_requirement_names_bare_witness :
  Forall (fun x => x <> ""
                   /\ is_lowered x = true
                   /\ Py.startswith x "#" = false
                   /\ no_semicolon x = true
                   /\ (forall a, a ∈ version_descriptors -> ~ occurs_in a x)
                   /\ _pip_requirement_split x = Ok (x, None, None))
    (Py.sorted ["foo"; "bar"]).
Proof.
  apply (pip_requirement_names_bare ["Foo>=1.0"; "bar"]).
  exact names_of_foo_bar.
Defined.

Lemma pip_constraint_update_sources_witness :
  exists out,
    Py.sorted <$> update_loop ["foo==1.0"; "bar==2.0"] ["baz"; "foo>=2.0"]
    = Ok out
    /\ Forall (fun y => y ∈ Py.lower <$> ["foo==1.0"; "Bar==2.0"]
                        \/ (y ∈ Py.lower <$> ["FOO>=2.0"; "baz"]
                            /\ has_version_spec y = true))
         out.
Proof.
  apply pip_constraint_update_sources. exact update_of_foo_bar.
Defined.

Lemma pip_constraint_update_keeps_unmatched_witness :
  exists out,
    Py.sorted <$> update_loop ["foo==1.0"; "bar==2.0"] ["baz"; "foo>=2.0"]
    = Ok out
    /\ Py.lower "Bar==2.0" ∈ out.
Proof.
  apply (pip_constraint_update_keeps_unmatched
           ["foo==1.0"; "Bar==2.0"] ["FOO>=2.0"; "baz"]).
  - exact update_of_foo_bar.
  - apply elem_of_cons. right. apply elem_of_cons. left. reflexivity.
  - intros o Ho Hv.
    apply elem_of_cons in Ho as [->|Ho]; [vm_compute; discriminate|].
    apply elem_of_cons in Ho as [->|Ho]; [vm_compute in Hv; discriminate|].
    by apply elem_of_nil in Ho.
Defined.

Lemma pip_constraint_update_names_witness :
  exists out,
    Py.sorted <$> update_loop ["foo==1.0"; "bar==2.0"] ["baz"; "foo>=2.0"]
    = Ok out
    /\ forall k,
         (exists y, y ∈ out /\ name_key y = k)
         <-> (exists b, b ∈ ["foo==1.0"; "Bar==2.0"] /\ name_key b = k)
             \/ (exists o, o ∈ ["FOO>=2.0"; "baz"]
                           /\ has_version_spec o = true /\ name_key o = k).
Proof.
  apply pip_constraint_update_names. exact update_of_foo_bar.
Defined.

Lemma pip_constraint_update_no_versions_witness :
  exists out,
    Py.sorted <$> update_loop ["pbr"; "six>=1.9"] ["tox"] = Ok out
    /\ Sorted String.le out
    /\ NoDup out
    /\ forall x, x ∈ out <-> x ∈ Py.lower <$> ["Six>=1.9"; "pbr"; "PBR"].
Proof.
  apply (pip_constraint_update_no_versions ["Six>=1.9"; "pbr"; "PBR"] ["tox"]).
  - intros o Ho. apply list_elem_of_singleton in Ho as ->. reflexivity.
  - apply pip_constraint_update_intro; enumerate_set.
Defined.

Lemma pip_requirement_names_of_update_witness :
  Ok (Py.sorted ["bar"; "foo"]) = Ok (Py.sorted ["foo"; "bar"]).
Proof.
  apply (pip_requirement_names_of_update
           ["foo==1.0"; "Bar==2.0"] ["FOO>=2.0"; "baz"]
           ["bar==2.0"; "foo>=2.0"]).
  - exact update_of_foo_bar_result.
  - apply (pip_requirement_names_return _ ["bar"; "foo"]);
      [reflexivity | enumerate_set].
  - apply (pip_requirement_names_return _ ["foo"; "bar"; "foo"]);
      [vm_compute; reflexivity | enumerate_set].
Defined.

Lemma pip_constraint_update_deterministic_witness :
  (forall r',
      pip_constraint_update ["foo==1.0"; "Bar==2.0"] ["FOO>=2.0"; "baz"] r' ->
      r' = Py.sorted
             <$> update_loop ["foo==1.0"; "bar==2.0"] ["baz"; "foo>=2.0"])
  /\ exists out,
       Py.sorted <$> update_loop ["foo==1.0"; "bar==2.0"] ["baz"; "foo>=2.0"]
       = Ok out
       /\ Sorted String.le out
       /\ NoDup out
       /\ forall x,
            x ∈ out
            <-> (x ∈ Py.lower <$> ["FOO>=2.0"; "baz"]
                 /\ has_version_spec x = true)
                \/ (x ∈ Py.lower <$> ["foo==1.0"; "Bar==2.0"]
                    /\ forall o, o ∈ ["FOO>=2.0"; "baz"] ->
                                 has_version_spec o = true ->
                                 name_key o <> name_key x).
Proof.
  apply pip_constraint_update_deterministic.
  - intros b b' Hb Hb' Hk.
    apply elem_of_cons in Hb as [->|Hb];
      [|apply list_elem_of_singleton in Hb as ->];
      (apply elem_of_cons in Hb' as [->|Hb'];
       [|apply list_elem_of_singleton in Hb' as ->]);
      first [reflexivity | vm_compute in Hk; discriminate Hk].
  - intros o o' Ho Ho' Hv Hv' Hk.
    apply elem_of_cons in Ho as [->|Ho];
      [|apply list_elem_of_singleton in Ho as ->];
      (apply elem_of_cons in Ho' as [->|Ho'];
       [|apply list_elem_of_singleton in Ho' as ->]);
      first [reflexivity | vm_compute in Hv; discriminate Hv
            | vm_compute in Hv'; discriminate Hv'].
  - exact update_of_foo_bar.
Defined.

Lemma bit_length_power_of_2_below_one_witness :
  (2 <= bit_length_power_of_2 (-3))%Z.
Proof.
  apply (proj1 (proj2 (bit_length_power_of_2_below_one (-3)))). lia.
Defined.

Lemma splitlines_lines_witness :
  String "a" (String LF (String "b" (String LF "")))
  = String.concat (String LF "")
      (splitlines (String "a" (String LF (String "b" (String LF "")))))
  \/ String "a" (String LF (String "b" (String LF "")))
     = String.concat (String LF "")
         (splitlines (String "a" (String LF (String "b" (String LF "")))))
       +:+ String LF "".
Proof.
  apply (proj2 (splitlines_lines _)). reflexivity.
Defined.
